(** * uavcan_linux helpers: Node factories and BlockingServiceClient

    A shallow embedding of
    [libuavcan_drivers/linux/include/uavcan_linux/helpers.hpp]:
    the [Node] wrapper with its endpoint factories, [makeNode], and
    [BlockingServiceClient].

    Conventions.
    - A C++ [int] status is a [Z]; the code only compares statuses with zero
      and prints them, so no wrap-around is involved.
    - A function that may [throw] returns [Thrown + A] ([inl] = thrown).
    - The libuavcan core (uavcan::Node, the endpoint primitives, the wrapped
      uavcan::ServiceClient and its [spin]-driven resolution) is not part of
      this header: it is taken as a parameter (a class of operations), and
      every call this header makes into it is recorded in an event log. *)

From Stdlib Require Import ZArith String Ascii List Lia Bool DecimalString DecimalZ DecimalPos.
Import ListNotations.
Local Open Scope string_scope.
Local Open Scope Z_scope.

(** ** Exceptions *)

(** The header throws a single class, [uavcan_linux::Exception], built from a
    message string. *)
Inductive Thrown : Type :=
| Exception (what : string).

Definition what (e : Thrown) : string :=
  match e with Exception m => m end.

(** The dynamic class of a thrown object: what a [catch] clause can branch on
    without reading the message. *)
Inductive ExceptionClass : Type :=
| UavcanLinuxException.

Definition exception_class (e : Thrown) : ExceptionClass :=
  match e with Exception _ => UavcanLinuxException end.

(** [os << error] for an [int]: signed decimal. *)
Definition show_int (error : Z) : string :=
  NilZero.string_of_int (Z.to_int error).

(** [Node::enforce] (lines 58-66). *)
Definition enforce (error : Z) (msg : string) : Thrown + unit :=
  if error <? 0
  then inl (Exception (msg ++ " [" ++ show_int error ++ "]"))
  else inr tt.

(** uavcan::MonotonicDuration, in microseconds. *)
Definition MonotonicDuration : Type := Z.

(** Modelled from the spec: [uavcan::MonotonicDuration::fromMSec] (libuavcan
    core, not in this header) builds a duration from milliseconds. *)
Definition fromMSec (ms : Z) : MonotonicDuration := ms * 1000.

(** ** Endpoint factories of [Node] *)

(** A message or service type, as far as the factories read it:
    [DataType::getDataTypeFullName()] and the publisher's default transmit
    timeout. *)
Record DataTypeInfo : Type := mkDataType {
  getDataTypeFullName : string;
  getDefaultTxTimeout : MonotonicDuration
}.

(** [Node::getDataTypeName<DataType>] (lines 68-72). *)
Definition getDataTypeName (D : DataTypeInfo) : string :=
  getDataTypeFullName D.

(** The libuavcan core primitives the factories call.  [UNode] is the state of
    the base [uavcan::Node<NodeMemPoolSize>]; [start]/[init] return the status
    and may change both the endpoint and the node. *)
Class UavcanCore : Type := {
  UNode : Type;
  SubscriberCallback : Type;
  ServiceServerCallback : Type;
  ServiceClientCallback : Type;
  Subscriber : Type;
  Publisher : Type;
  ServiceServer : Type;
  ServiceClient : Type;
  Subscriber_new : DataTypeInfo -> UNode -> Subscriber;
  Subscriber_start : SubscriberCallback -> Subscriber -> UNode -> Z * Subscriber * UNode;
  Publisher_new : DataTypeInfo -> UNode -> Publisher;
  Publisher_init : Publisher -> UNode -> Z * Publisher * UNode;
  Publisher_setTxTimeout : MonotonicDuration -> Publisher -> Publisher;
  ServiceServer_new : DataTypeInfo -> UNode -> ServiceServer;
  ServiceServer_start : ServiceServerCallback -> ServiceServer -> UNode -> Z * ServiceServer * UNode;
  ServiceClient_new : DataTypeInfo -> UNode -> ServiceClient;
  ServiceClient_init : ServiceClient -> UNode -> Z * ServiceClient * UNode;
  ServiceClient_setCallback : ServiceClientCallback -> ServiceClient -> ServiceClient
}.

(** A member function of [Node] that may throw: it reads and updates the base
    node and either throws or returns. *)
Definition NodeM `{UavcanCore} (A : Type) : Type := UNode -> (Thrown + A) * UNode.

Definition ret `{UavcanCore} {A} (a : A) : NodeM A := fun n => (inr a, n).

Definition bind `{UavcanCore} {A B} (m : NodeM A) (k : A -> NodeM B) : NodeM B :=
  fun n =>
    match m n with
    | (inl e, n') => (inl e, n')
    | (inr a, n') => k a n'
    end.

(** Lift a static function that may throw. *)
Definition lift `{UavcanCore} {A} (r : Thrown + A) : NodeM A := fun n => (r, n).

(** Run a core primitive on an endpoint object. *)
Definition core `{UavcanCore} {P} (op : UNode -> Z * P * UNode) : NodeM (Z * P) :=
  fun n => let '(st, p, n') := op n in (inr (st, p), n').

Definition this `{UavcanCore} : NodeM UNode := fun n => (inr n, n).

Declare Scope node_scope.
Delimit Scope node_scope with node.
Notation "x <- m ;; k" := (bind m (fun x => k))
  (at level 61, m at next level, right associativity) : node_scope.
Notation "' pat <- m ;; k" := (bind m (fun x => match x with pat => k end))
  (at level 61, pat pattern, m at next level, right associativity) : node_scope.
Notation "m ;;; k" := (bind m (fun _ => k))
  (at level 61, right associativity) : node_scope.

Section Factories.
Context `{UavcanCore}.
Local Open Scope node_scope.

(** [Node::makeSubscriber] (lines 94-101). *)
Definition makeSubscriber (D : DataTypeInfo) (cb : SubscriberCallback) : NodeM Subscriber :=
  n <- this ;;
  '(st, p) <- core (Subscriber_start cb (Subscriber_new D n)) ;;
  lift (enforce st ("Subscriber start failure " ++ getDataTypeName D)) ;;;
  ret p.

(** [Node::makePublisher] (lines 103-111). *)
Definition makePublisher (D : DataTypeInfo) (tx_timeout : MonotonicDuration)
  : NodeM Publisher :=
  n <- this ;;
  '(st, p) <- core (Publisher_init (Publisher_new D n)) ;;
  lift (enforce st ("Publisher init failure " ++ getDataTypeName D)) ;;;
  ret (Publisher_setTxTimeout tx_timeout p).

(** The default argument of [makePublisher]. *)
Definition makePublisher_default (D : DataTypeInfo) : NodeM Publisher :=
  makePublisher D (getDefaultTxTimeout D).

(** [Node::makeServiceServer] (lines 113-120). *)
Definition makeServiceServer (D : DataTypeInfo) (cb : ServiceServerCallback) : NodeM ServiceServer :=
  n <- this ;;
  '(st, p) <- core (ServiceServer_start cb (ServiceServer_new D n)) ;;
  lift (enforce st ("ServiceServer start failure " ++ getDataTypeName D)) ;;;
  ret p.

(** [Node::makeServiceClient] (lines 122-130). *)
Definition makeServiceClient (D : DataTypeInfo) (cb : ServiceClientCallback) : NodeM ServiceClient :=
  n <- this ;;
  '(st, p) <- core (ServiceClient_init (ServiceClient_new D n)) ;;
  lift (enforce st ("ServiceClient init failure " ++ getDataTypeName D)) ;;;
  ret (ServiceClient_setCallback cb p).

End Factories.

(** ** [DriverPack] and [makeNode] *)

(** What [makeNode] takes from the Linux host and from clock.hpp. *)
Class LinuxHost : Type := {
  (** [ClockAdjustmentMode] is declared in clock.hpp; the header only passes
      it on. *)
  ClockAdjustmentMode : Type;
  (** [SystemClock::detectPreferredClockAdjustmentMode()]. *)
  detectPreferredClockAdjustmentMode : ClockAdjustmentMode;
  (** What the host answers when the driver tries to attach the interface
      [ifn] while [attached] are attached already (a negative status when the
      name cannot be opened or the driver is full). *)
  attach_status : list string -> string -> Z
}.

Section MakeNode.
Context `{LinuxHost}.

Record SystemClock : Type := mkSystemClock {
  adjustment_mode : ClockAdjustmentMode
}.

(** Modelled from the spec: [SocketCanDriver] (socketcan.hpp) is bound to a
    clock and holds the attached interfaces; [addIface] attaches one physical
    interface by name and returns a status, leaving the driver as it was on a
    negative one. *)
Record SocketCanDriver : Type := mkSocketCanDriver {
  can_clock : SystemClock;
  ifaces_ : list string
}.

Definition addIface (can : SocketCanDriver) (ifn : string) : Z * SocketCanDriver :=
  let st := attach_status (ifaces_ can) ifn in
  if st <? 0 then (st, can)
  else (st, mkSocketCanDriver (can_clock can) (ifaces_ can ++ [ifn])).

(** [struct DriverPack] (lines 33-42). *)
Record DriverPack : Type := mkDriverPack {
  clock : SystemClock;
  can : SocketCanDriver
}.

Definition DriverPack_new (clock_adjustment_mode : ClockAdjustmentMode) : DriverPack :=
  let c := mkSystemClock clock_adjustment_mode in
  mkDriverPack c (mkSocketCanDriver c []).

(** [class Node], the members this header adds to the base node: the owned
    driver pack and whether the default log sink is registered.  The base
    [uavcan::Node] is built over [dp->can] and [dp->clock]. *)
Record Node : Type := mkNode {
  driver_pack_ : option DriverPack;
  external_sink_set : bool
}.

(** [Node(can_driver, clock)] (lines 78-82): a node over drivers it does not
    own. *)
Definition Node_forwarding : Node := mkNode None true.

(** [explicit Node(DriverPackPtr)] (lines 87-92). *)
Definition Node_of_driver_pack (driver_pack : DriverPack) : Node :=
  mkNode (Some driver_pack) true.

(** The loop of [makeNode] (lines 157-163) over the remaining names. *)
Fixpoint addIfaces (c : SocketCanDriver) (iface_names : list string)
  : Thrown + SocketCanDriver :=
  match iface_names with
  | [] => inr c
  | ifn :: rest =>
      let '(st, c') := addIface c ifn in
      if st <? 0 then inl (Exception ("Failed to add iface " ++ ifn))
      else addIfaces c' rest
  end.

(** [makeNode(iface_names, clock_adjustment_mode)] (lines 154-165). *)
Definition makeNode (iface_names : list string)
  (clock_adjustment_mode : ClockAdjustmentMode) : Thrown + Node :=
  let dp := DriverPack_new clock_adjustment_mode in
  match addIfaces (can dp) iface_names with
  | inl e => inl e
  | inr c => inr (Node_of_driver_pack (mkDriverPack (clock dp) c))
  end.

(** [makeNode(iface_names)] (lines 170-173). *)
Definition makeNode_auto (iface_names : list string) : Thrown + Node :=
  makeNode iface_names detectPreferredClockAdjustmentMode.

(** Every name of [names] attaches when tried in order on a driver that holds
    [attached]. *)
Fixpoint all_attach (attached names : list string) : bool :=
  match names with
  | [] => true
  | ifn :: rest =>
      (0 <=? attach_status attached ifn) && all_attach (attached ++ [ifn]) rest
  end.

End MakeNode.

(** ** [BlockingServiceClient] *)

(** [uavcan::NodeID]. *)
Definition NodeID : Type := Z.

(** The service type [DataType] of the template: its request and response
    structures and the value-initialised response
    [typename DataType::Response()]. *)
Class ServiceDataType : Type := {
  Request : Type;
  Response : Type;
  Response_new : Response
}.

(** Modelled from the spec: [uavcan::ServiceCallResult<DataType>] (libuavcan
    core) carries the response payload and tells whether the call fully
    succeeded (a response was received and there was no protocol-level
    failure). *)
Record ServiceCallResult `{ServiceDataType} : Type := mkResult {
  response : Response;
  isSuccessful : bool
}.
Arguments mkResult {_} _ _.

(** The data members of [BlockingServiceClient] (lines 184-185). *)
Record Members `{ServiceDataType} : Type := mkMembers {
  response_ : Response;
  call_was_successful_ : bool
}.
Arguments mkMembers {_} _ _.

(** A callback bound to [this]: it acts on the members. *)
Definition BoundCallback `{ServiceDataType} : Type :=
  ServiceCallResult -> Members -> Members.

(** The object: the callback slot of the wrapped [uavcan::ServiceClient]
    (empty until [setCallback]) and the members. *)
Record BlockingServiceClient `{ServiceDataType} : Type := mkClient {
  super_callback : option BoundCallback;
  members : Members
}.
Arguments mkClient {_} _ _.

(** The libuavcan core as [BlockingServiceClient] uses it.  [World] is the
    state of the node runtime and of the wrapped client (pending call,
    deadline, request timeout, bus).  [Super_call] and [Node_spin] return
    their status together with the call results the core hands to the
    client's callback while they run, in order. *)
Class ServiceRuntime `{ServiceDataType} : Type := {
  World : Type;
  Super_setRequestTimeout : MonotonicDuration -> World -> World;
  Super_call : NodeID -> Request -> World -> Z * list ServiceCallResult * World;
  Super_isPending : World -> bool;
  Node_spin : MonotonicDuration -> World -> Z * list ServiceCallResult * World
}.

(** What the header does to the core, and what the core does to the client,
    in the order it happens. *)
Inductive Event `{ServiceDataType} : Type :=
| EvSetCallback
| EvSetRequestTimeout (timeout : MonotonicDuration)
| EvCall (server_node_id : NodeID) (request : Request) (status : Z)
| EvIsPending (pending : bool)
| EvSpin (duration : MonotonicDuration) (status : Z)
| EvCallback (res : ServiceCallResult).

(** The client, the runtime it lives in, and the log (newest event first). *)
Record Sys `{ServiceRuntime} : Type := mkSys {
  client : BlockingServiceClient;
  world : World;
  log : list Event
}.
Arguments mkSys {_ _} _ _ _.

Section Blocking.
Context `{ServiceRuntime}.

Definition record (e : Event) (s : Sys) : Sys :=
  mkSys (client s) (world s) (e :: log s).

(** [BlockingServiceClient::callback] (lines 187-191). *)
Definition callback (res : ServiceCallResult) (m : Members) : Members :=
  mkMembers (response res) (isSuccessful res).

(** The core invokes the callback stored in the client's slot. *)
Definition invoke (s : Sys) (res : ServiceCallResult) : Sys :=
  match super_callback (client s) with
  | Some cb =>
      mkSys (mkClient (super_callback (client s)) (cb res (members (client s))))
            (world s) (EvCallback res :: log s)
  | None => s
  end.

Definition deliver (results : list ServiceCallResult) (s : Sys) : Sys :=
  fold_left invoke results s.

(** [BlockingServiceClient::setup] (lines 193-198). *)
Definition setup (s : Sys) : Sys :=
  mkSys (mkClient (Some callback) (mkMembers Response_new false))
        (world s) (EvSetCallback :: log s).

(** The constructor (lines 201-206), for a client created in the runtime
    state [w]. *)
Definition BlockingServiceClient_new (w : World) : Sys :=
  setup (mkSys (mkClient None (mkMembers Response_new false)) w []).

(** [Super::call(server_node_id, request)]. *)
Definition do_call (server_node_id : NodeID) (request : Request) (s : Sys) : Z * Sys :=
  let '(st, results, w) := Super_call server_node_id request (world s) in
  (st, record (EvCall server_node_id request st)
         (deliver results (mkSys (client s) w (log s)))).

(** [Super::isPending()]. *)
Definition do_isPending (s : Sys) : bool * Sys :=
  let b := Super_isPending (world s) in (b, record (EvIsPending b) s).

(** [Super::getNode().spin(duration)]. *)
Definition do_spin (duration : MonotonicDuration) (s : Sys) : Z * Sys :=
  let '(st, results, w) := Node_spin duration (world s) in
  (st, record (EvSpin duration st)
         (deliver results (mkSys (client s) w (log s)))).

(** [Super::setRequestTimeout(timeout)]. *)
Definition do_setRequestTimeout (timeout : MonotonicDuration) (s : Sys) : Sys :=
  record (EvSetRequestTimeout timeout)
    (mkSys (client s) (Super_setRequestTimeout timeout (world s)) (log s)).

Definition SpinDuration : MonotonicDuration := fromMSec 2.

(** The [while] loop of [blockingCall] (lines 215-222).  The loop has no bound
    of its own; [fuel] bounds the number of condition checks and [None] means
    that it ran out. *)
Fixpoint spin_loop (fuel : nat) (call_res : Z) (s : Sys) : option (Z * Sys) :=
  match fuel with
  | O => None
  | S fuel' =>
      let '(pending, s1) := do_isPending s in
      if pending then
        let '(spin_res, s2) := do_spin SpinDuration s1 in
        if spin_res <? 0 then Some (spin_res, s2)
        else spin_loop fuel' call_res s2
      else Some (call_res, s1)
  end.

(** [blockingCall(server_node_id, request)] (lines 208-225). *)
Definition blockingCall (fuel : nat) (server_node_id : NodeID) (request : Request)
  (s : Sys) : option (Z * Sys) :=
  let s0 := setup s in
  let '(call_res, s1) := do_call server_node_id request s0 in
  if 0 <=? call_res then spin_loop fuel call_res s1
  else Some (call_res, s1).

(** [blockingCall(server_node_id, request, timeout)] (lines 227-232). *)
Definition blockingCall_timeout (fuel : nat) (server_node_id : NodeID)
  (request : Request) (timeout : MonotonicDuration) (s : Sys) : option (Z * Sys) :=
  blockingCall fuel server_node_id request (do_setRequestTimeout timeout s).

(** [wasSuccessful()] and [getResponse()] (lines 234-236). *)
Definition wasSuccessful (s : Sys) : bool := call_was_successful_ (members (client s)).

Definition getResponse (s : Sys) : Response := response_ (members (client s)).

End Blocking.

(** ** A simulated runtime *)

(** Modelled from the spec: the simulated peer of the spec's testable
    properties, a single-threaded runtime in which a call is resolved during
    [spin], either by the peer's response or by the request timeout of the
    wrapped client, and in which [spin] and [call] can be made to fail. *)
Module Sim.

#[export] Instance IntService : ServiceDataType := {
  Request := Z;
  Response := Z;
  Response_new := 0
}.

Record SimWorld : Type := mkSim {
  now : Z;                      (* monotonic time, microseconds *)
  request_timeout : Z;          (* of the wrapped client *)
  deadline : option Z;          (* [Some]: a call is pending until then *)
  arrival : option (Z * Z);     (* when the response arrives, and its payload *)
  peer_delay : Z -> option Z;   (* per request; [None]: the peer never responds *)
  issue_status : Z;             (* what [Super::call] answers *)
  link_down_at : option Z       (* [spin] fails from this time on *)
}.

(** The peer answers a request [r] with [r + 1]. *)
Definition sim_call (server_node_id : NodeID) (request : Z) (w : SimWorld)
  : Z * list ServiceCallResult * SimWorld :=
  if issue_status w <? 0 then (issue_status w, [], w)
  else (issue_status w, [],
        mkSim (now w) (request_timeout w) (Some (now w + request_timeout w))
              (match peer_delay w request with
               | Some d => Some (now w + d, request + 1)
               | None => None
               end)
              (peer_delay w) (issue_status w) (link_down_at w)).

Definition link_is_down (w : SimWorld) : bool :=
  match link_down_at w with
  | Some t => t <=? now w
  | None => false
  end.

Definition resolved (w : SimWorld) (t : Z) : SimWorld :=
  mkSim t (request_timeout w) None None (peer_delay w) (issue_status w) (link_down_at w).

Definition sim_spin (duration : MonotonicDuration) (w : SimWorld)
  : Z * list ServiceCallResult * SimWorld :=
  if link_is_down w then (-1, [], w)
  else
    let t := now w + duration in
    let idle := mkSim t (request_timeout w) (deadline w) (arrival w)
                      (peer_delay w) (issue_status w) (link_down_at w) in
    match deadline w with
    | None => (0, [], idle)
    | Some dl =>
        match arrival w with
        | Some (ta, payload) =>
            if (ta <=? t) && (ta <? dl) then (0, [mkResult payload true], resolved w t)
            else if dl <=? t then (0, [mkResult Response_new false], resolved w t)
            else (0, [], idle)
        | None =>
            if dl <=? t then (0, [mkResult Response_new false], resolved w t)
            else (0, [], idle)
        end
    end.

Definition sim_isPending (w : SimWorld) : bool :=
  match deadline w with Some _ => true | None => false end.

Definition sim_setRequestTimeout (timeout : MonotonicDuration) (w : SimWorld) : SimWorld :=
  mkSim (now w) timeout (deadline w) (arrival w) (peer_delay w) (issue_status w)
        (link_down_at w).

#[export] Instance SimRuntime : ServiceRuntime := {
  World := SimWorld;
  Super_setRequestTimeout := sim_setRequestTimeout;
  Super_call := sim_call;
  Super_isPending := sim_isPending;
  Node_spin := sim_spin
}.

(** A runtime at time zero with no call pending. *)
Definition quiet (timeout : Z) (delay : Z -> option Z) (status : Z) (down : option Z)
  : SimWorld :=
  mkSim 0 timeout None None delay status down.

(** Peers: one that answers every request after [d] microseconds, one that
    never answers, and one that answers every request but [r]. *)
Definition answers_after (d : Z) : Z -> option Z := fun _ => Some d.

Definition silent : Z -> option Z := fun _ => None.

Definition silent_on (r d : Z) : Z -> option Z :=
  fun request => if request =? r then None else Some d.

End Sim.

(** A core in which every [start]/[init] answers the same status; endpoints
    are their data types and the node counts the endpoints it registered. *)
Definition FixedCore (status : Z) : UavcanCore := {|
  UNode := nat;
  SubscriberCallback := unit;
  ServiceServerCallback := unit;
  ServiceClientCallback := unit;
  Subscriber := DataTypeInfo;
  Publisher := DataTypeInfo * MonotonicDuration;
  ServiceServer := DataTypeInfo;
  ServiceClient := DataTypeInfo;
  Subscriber_new := fun D _ => D;
  Subscriber_start := fun _ p n => (status, p, if status <? 0 then n else S n);
  Publisher_new := fun D _ => (D, 0);
  Publisher_init := fun p n => (status, p, if status <? 0 then n else S n);
  Publisher_setTxTimeout := fun t p => (fst p, t);
  ServiceServer_new := fun D _ => D;
  ServiceServer_start := fun _ p n => (status, p, if status <? 0 then n else S n);
  ServiceClient_new := fun D _ => D;
  ServiceClient_init := fun p n => (status, p, if status <? 0 then n else S n);
  ServiceClient_setCallback := fun _ p => p
|}.

(** A host with the interfaces [present], on which a driver takes at most
    [max_ifaces] of them. *)
Definition HostWith (present : list string) (max_ifaces : nat) : LinuxHost := {|
  ClockAdjustmentMode := bool;
  detectPreferredClockAdjustmentMode := true;
  attach_status := fun attached ifn =>
    if (max_ifaces <=? length attached)%nat then -1
    else if existsb (String.eqb ifn) present then Z.of_nat (length attached)
    else -2
|}.

Definition NodeStatus : DataTypeInfo :=
  mkDataType "uavcan.protocol.NodeStatus" 100000.

(** ** Vocabulary of the statements *)

Section BlockingVocabulary.
Context `{ServiceRuntime}.

(** [spins_through s k s']: from [s], the loop of [blockingCall] makes [k]
    iterations, each finding the call pending and each [spin] answering a
    non-negative status, and reaches [s']. *)
Inductive spins_through : Sys -> nat -> Sys -> Prop :=
| spins_none : forall s, spins_through s 0 s
| spins_more : forall s st s1 k s',
    Super_isPending (world s) = true ->
    do_spin SpinDuration (record (EvIsPending true) s) = (st, s1) ->
    0 <= st ->
    spins_through s1 k s' ->
    spins_through s (S k) s'.

(** The number of [spin] invocations in a log. *)
Fixpoint spins_in (l : list Event) : nat :=
  match l with
  | [] => 0
  | EvSpin _ _ :: l' => S (spins_in l')
  | _ :: l' => spins_in l'
  end.

(** The members after the callbacks of a log (newest first) have run, oldest
    first, on [m]. *)
Fixpoint replay (l : list Event) (m : Members) : Members :=
  match l with
  | [] => m
  | EvCallback res :: l' => callback res (replay l' m)
  | _ :: l' => replay l' m
  end.

(** The request timeout most recently set in a log, if any. *)
Fixpoint timeout_in_force (l : list Event) : option MonotonicDuration :=
  match l with
  | [] => None
  | EvSetRequestTimeout t :: _ => Some t
  | _ :: l' => timeout_in_force l'
  end.

(** For every call issued in a log, newest first, the request timeout that was
    in force when it was issued. *)
Fixpoint issued_under (l : list Event) : list (option MonotonicDuration) :=
  match l with
  | [] => []
  | EvCall _ _ _ :: l' => timeout_in_force l' :: issued_under l'
  | _ :: l' => issued_under l'
  end.

(** What a caller does with a client: the two overloads of [blockingCall],
    and spinning the node itself. *)
Inductive Op : Type :=
| OpBlockingCall (server_node_id : NodeID) (request : Request)
| OpBlockingCallTimeout (server_node_id : NodeID) (request : Request)
    (timeout : MonotonicDuration)
| OpSpin (duration : MonotonicDuration).

Definition run_op (fuel : nat) (op : Op) (s : Sys) : option Sys :=
  match op with
  | OpBlockingCall id req => option_map snd (blockingCall fuel id req s)
  | OpBlockingCallTimeout id req t => option_map snd (blockingCall_timeout fuel id req t s)
  | OpSpin d => Some (snd (do_spin d s))
  end.

Fixpoint run (fuel : nat) (ops : list Op) (s : Sys) : option Sys :=
  match ops with
  | [] => Some s
  | op :: rest =>
      match run_op fuel op s with
      | Some s1 => run fuel rest s1
      | None => None
      end
  end.

Definition sets_timeout (op : Op) : bool :=
  match op with OpBlockingCallTimeout _ _ _ => true | _ => false end.

Definition issues_call (op : Op) : bool :=
  match op with OpSpin _ => false | _ => true end.

(** The contract of the core about the callback and the pending call: the
    callback is invoked when a call is resolved, so an operation that leaves a
    call pending has invoked none; and [spin] does not issue calls, so a call
    pending after it was pending before. *)
Definition core_contract : Prop :=
  (forall id req w st results w',
      Super_call id req w = (st, results, w') ->
      Super_isPending w' = true -> results = [])
  /\ (forall d w st results w',
      Node_spin d w = (st, results, w') ->
      Super_isPending w' = true -> results = [] /\ Super_isPending w = true).

(** Events that neither issue a call nor set the request timeout. *)
Definition passive_event (e : Event) : bool :=
  match e with
  | EvCall _ _ _ | EvSetRequestTimeout _ => false
  | _ => true
  end.

(** The request timeouts a log sets, newest first. *)
Fixpoint timeouts_set (l : list Event) : list MonotonicDuration :=
  match l with
  | [] => []
  | EvSetRequestTimeout t :: l' => t :: timeouts_set l'
  | _ :: l' => timeouts_set l'
  end.

(** The number of calls a log issues. *)
Fixpoint calls_in (l : list Event) : nat :=
  match l with
  | [] => 0
  | EvCall _ _ _ :: l' => S (calls_in l')
  | _ :: l' => calls_in l'
  end.

(** The members as the constructor and [setup] leave them. *)
Definition reset_members : Members := mkMembers Response_new false.

(** The callback of [setup] is in the slot, and while a call is pending the
    members are the reset ones. *)
Definition reset_while_pending (s : Sys) : Prop :=
  super_callback (client s) = Some callback
  /\ (Super_isPending (world s) = true -> members (client s) = reset_members).

(** [s'] follows [s] by the events [new]: the log grew by them, the slot still
    holds the callback of [setup], and the members are those of [s] after the
    callbacks among [new]. *)
Definition follows (s s' : Sys) (new : list Event) : Prop :=
  log s' = (new ++ log s)%list
  /\ super_callback (client s') = Some callback
  /\ members (client s') = replay new (members (client s)).

End BlockingVocabulary.

(** The outcome the factories share: [enforce] on the status [st] of the
    endpoint [p], under the message prefix [what_failed]. *)
Definition enforced {P : Type} (what_failed : string) (D : DataTypeInfo) (st : Z) (p : P)
  : Thrown + P :=
  if st <? 0
  then inl (Exception (what_failed ++ getDataTypeFullName D ++ " [" ++ show_int st ++ "]"))
  else inr p.

(** An endpoint factory threw [e]. *)
Definition endpoint_factory_throws `{UavcanCore} (D : DataTypeInfo) (n : UNode) (e : Thrown) : Prop :=
  (exists cb, fst (makeSubscriber D cb n) = inl e)
  \/ (exists tx_timeout, fst (makePublisher D tx_timeout n) = inl e)
  \/ (exists cb, fst (makeServiceServer D cb n) = inl e)
  \/ (exists cb, fst (makeServiceClient D cb n) = inl e).

(** ** Vocabulary of the further properties *)

(** The character [c] occurs in [s]. *)
Fixpoint mentions (c : ascii) (s : string) : bool :=
  match s with
  | EmptyString => false
  | String x s' => Ascii.eqb x c || mentions c s'
  end.

(** The four endpoint factories and the message prefix each passes to
    [enforce]. *)
Inductive Endpoint : Type :=
| ESubscriber
| EPublisher
| EServiceServer
| EServiceClient.

Definition failure_prefix (k : Endpoint) : string :=
  match k with
  | ESubscriber => "Subscriber start failure "
  | EPublisher => "Publisher init failure "
  | EServiceServer => "ServiceServer start failure "
  | EServiceClient => "ServiceClient init failure "
  end.

(** The factory of kind [k] for the type [D], whose [start]/[init] answered
    [st], threw [e]. *)
Definition factory_throws `{UavcanCore} (k : Endpoint) (D : DataTypeInfo) (st : Z)
  (e : Thrown) : Prop :=
  match k with
  | ESubscriber =>
      exists cb n,
        fst (fst (Subscriber_start cb (Subscriber_new D n) n)) = st
        /\ fst (makeSubscriber D cb n) = inl e
  | EPublisher =>
      exists tx_timeout n,
        fst (fst (Publisher_init (Publisher_new D n) n)) = st
        /\ fst (makePublisher D tx_timeout n) = inl e
  | EServiceServer =>
      exists cb n,
        fst (fst (ServiceServer_start cb (ServiceServer_new D n) n)) = st
        /\ fst (makeServiceServer D cb n) = inl e
  | EServiceClient =>
      exists cb n,
        fst (fst (ServiceClient_init (ServiceClient_new D n) n)) = st
        /\ fst (makeServiceClient D cb n) = inl e
  end.

Section FurtherVocabulary.
Context `{ServiceRuntime}.

Definition is_callback (e : Event) : bool :=
  match e with EvCallback _ => true | _ => false end.

(** The result most recently handed to the callback in a log, if any. *)
Fixpoint last_result (l : list Event) : option ServiceCallResult :=
  match l with
  | [] => None
  | EvCallback res :: _ => Some res
  | _ :: l' => last_result l'
  end.

(** The calls a log issues, newest first. *)
Fixpoint calls_of (l : list Event) : list (NodeID * Request) :=
  match l with
  | [] => []
  | EvCall id req _ :: l' => (id, req) :: calls_of l'
  | _ :: l' => calls_of l'
  end.

(** A spin event is a slice of two milliseconds. *)
Definition two_ms_slice (e : Event) : Prop :=
  match e with EvSpin d _ => d = 2000 | _ => True end.

(** A spin event answered a non-negative status. *)
Definition spin_succeeded (e : Event) : Prop :=
  match e with EvSpin _ st => 0 <= st | _ => True end.

(** Events among which every spin is a two-millisecond slice that answered no
    error, and none of which issues a call. *)
Definition loop_events (l : list Event) : Prop :=
  Forall two_ms_slice l /\ Forall spin_succeeded l /\ calls_of l = [].

(** From [s] the loop of [blockingCall] can turn for ever: after any number
    of turns the call is still pending and the next spin answers no error. *)
Definition stays_pending (s : Sys) : Prop :=
  forall k s',
    spins_through s k s' ->
    Super_isPending (world s') = true
    /\ 0 <= fst (do_spin SpinDuration (record (EvIsPending true) s')).

(** The request timeouts a caller passes, in call order. *)
Fixpoint timeouts_given (ops : list Op) : list MonotonicDuration :=
  match ops with
  | [] => []
  | OpBlockingCallTimeout _ _ t :: rest => t :: timeouts_given rest
  | _ :: rest => timeouts_given rest
  end.

End FurtherVocabulary.

(** A runtime that follows a script: [call] accepts every call, and each
    [spin] answers the next scripted status and hands over the next scripted
    results, resolving the call when it hands over any; once the script is
    exhausted [spin] answers 0 and changes nothing. *)
Module Scripted.

Record ScriptedWorld : Type := mkScripted {
  pending : bool;
  script : list (Z * list (@ServiceCallResult Sim.IntService))
}.

Definition scripted_call (server_node_id : NodeID) (request : @Request Sim.IntService)
  (w : ScriptedWorld)
  : Z * list (@ServiceCallResult Sim.IntService) * ScriptedWorld :=
  (0, [], mkScripted true (script w)).

Definition scripted_spin (duration : MonotonicDuration) (w : ScriptedWorld)
  : Z * list (@ServiceCallResult Sim.IntService) * ScriptedWorld :=
  match script w with
  | [] => (0, [], w)
  | (st, results) :: rest =>
      (st, results,
       mkScripted (match results with [] => pending w | _ => false end) rest)
  end.

Definition ScriptedRuntime : @ServiceRuntime Sim.IntService := {|
  World := ScriptedWorld;
  Super_setRequestTimeout := fun _ w => w;
  Super_call := scripted_call;
  Super_isPending := pending;
  Node_spin := scripted_spin
|}.

End Scripted.

(** * Properties *)

(** ** The text of a status *)

Lemma mentions_app c a b : mentions c (a ++ b) = mentions c a || mentions c b.
Proof.
  induction a as [| x a IH]; [reflexivity |].
  cbn [append mentions]. now rewrite IH, orb_assoc.
Qed.

Lemma digits_no_bracket d : mentions "[" (NilEmpty.string_of_uint d) = false.
Proof.
  induction d; cbn [NilEmpty.string_of_uint mentions]; try rewrite IHd; reflexivity.
Qed.

Lemma show_int_no_bracket z : mentions "[" (show_int z) = false.
Proof.
  unfold show_int, NilZero.string_of_int, NilZero.string_of_uint.
  destruct (Z.to_int z) as [d | d]; destruct d; cbn [mentions];
    rewrite ?digits_no_bracket; reflexivity.
Qed.

Lemma to_int_proper z :
  Z.to_int z <> Decimal.Pos Decimal.Nil /\ Z.to_int z <> Decimal.Neg Decimal.Nil.
Proof.
  destruct z as [| p | p]; cbn; split; try discriminate;
    intros Heq; injection Heq as Heq;
    exact (DecimalPos.Unsigned.to_uint_nonnil p Heq).
Qed.

(** The decimal text of a status determines the status. *)
Lemma show_int_inj a b : show_int a = show_int b -> a = b.
Proof.
  unfold show_int. intros Heq.
  apply DecimalZ.to_int_inj.
  destruct (to_int_proper a) as [Ha1 Ha2]. destruct (to_int_proper b) as [Hb1 Hb2].
  pose proof (NilZero.isi _ Ha1 Ha2) as Ia. pose proof (NilZero.isi _ Hb1 Hb2) as Ib.
  rewrite Heq in Ia. rewrite Ia in Ib. now injection Ib.
Qed.

Lemma append_cancel_l a b c : a ++ b = a ++ c -> b = c.
Proof.
  induction a as [| x a IH]; cbn [append]; intros Heq;
    [exact Heq | injection Heq as Heq; auto].
Qed.

Lemma append_cancel_last : forall a b c, a ++ String c "" = b ++ String c "" -> a = b.
Proof.
  induction a as [| x a IH]; intros [| y b] c Heq; cbn [append] in Heq.
  - reflexivity.
  - injection Heq as _ Heq. destruct b; discriminate.
  - injection Heq as _ Heq. destruct a; discriminate.
  - injection Heq as -> Heq. f_equal. exact (IH _ _ Heq).
Qed.

(** A message ends in one bracketed group: when the bracketed texts hold no
    opening bracket, the text before the group and the text inside it are
    determined. *)
Lemma bracket_split : forall m1 m2 d1 d2,
  mentions "[" d1 = false -> mentions "[" d2 = false ->
  m1 ++ " [" ++ d1 ++ "]" = m2 ++ " [" ++ d2 ++ "]" ->
  m1 = m2 /\ d1 = d2.
Proof.
  assert (Hshort : forall m d1 d2, mentions "[" d1 = false ->
            " [" ++ d1 ++ "]" = String " " (m ++ " [" ++ d2 ++ "]") -> m = "").
  { intros m d1 d2 Hd1 Heq. cbn [append] in Heq. injection Heq as Heq.
    destruct m as [| y m]; [reflexivity |]. exfalso.
    cbn [append] in Heq. injection Heq as _ Heq.
    apply (f_equal (mentions "[")) in Heq.
    rewrite !mentions_app, Hd1 in Heq. cbn in Heq.
    rewrite orb_true_r in Heq. discriminate. }
  induction m1 as [| x m1 IH]; intros [| y m2] d1 d2 Hd1 Hd2 Heq.
  - split; [reflexivity |]. cbn [append] in Heq. injection Heq as Heq.
    exact (append_cancel_last _ _ _ Heq).
  - exfalso. cbn [append] in Heq.
    assert (y = " "%char) by (now injection Heq). subst y.
    change (" [" ++ d1 ++ "]" = String " " (m2 ++ " [" ++ d2 ++ "]")) in Heq.
    pose proof (Hshort _ _ _ Hd1 Heq) as ->. cbn [append] in Heq.
    discriminate.
  - exfalso. cbn [append] in Heq. symmetry in Heq.
    assert (x = " "%char) by (now injection Heq). subst x.
    change (" [" ++ d2 ++ "]" = String " " (m1 ++ " [" ++ d1 ++ "]")) in Heq.
    pose proof (Hshort _ _ _ Hd2 Heq) as ->. cbn [append] in Heq.
    discriminate.
  - cbn [append] in Heq. injection Heq as -> Heq.
    destruct (IH _ _ _ Hd1 Hd2 Heq) as [-> ->]. split; reflexivity.
Qed.

(** The decimal text of a status reads back as the status. *)
Lemma show_int_reads_back st :
  option_map Z.of_int (NilZero.int_of_string (show_int st)) = Some st.
Proof.
  unfold show_int. destruct (to_int_proper st) as [Hpos Hneg].
  rewrite (NilZero.isi _ Hpos Hneg). cbn [option_map].
  now rewrite DecimalZ.of_to.
Qed.

(** ** Factories *)

Section FactoryProperties.
Context `{UavcanCore}.

Lemma append_assoc (a b c : string) : (a ++ b) ++ c = a ++ (b ++ c).
Proof.
  induction a as [| x a IH]; simpl; [reflexivity | now rewrite IH].
Qed.

Lemma enforce_enforced {P} (prefix : string) D st (p : P) n :
  bind (lift (enforce st (prefix ++ getDataTypeName D))) (fun _ => ret p) n
  = (enforced prefix D st p, n).
Proof.
  unfold bind, lift, ret, enforce, enforced, getDataTypeName.
  destruct (st <? 0); [| reflexivity].
  now rewrite append_assoc.
Qed.

Lemma makeSubscriber_enforced D cb n :
  let '(st, p, n') := Subscriber_start cb (Subscriber_new D n) n in
  makeSubscriber D cb n = (enforced "Subscriber start failure " D st p, n').
Proof.
  destruct (Subscriber_start cb (Subscriber_new D n) n) as [[st p] n'] eqn:E.
  unfold makeSubscriber, bind at 1, this. unfold bind at 1, core.
  rewrite E. apply enforce_enforced.
Qed.

Lemma makePublisher_enforced D tx_timeout n :
  let '(st, p, n') := Publisher_init (Publisher_new D n) n in
  makePublisher D tx_timeout n
  = (enforced "Publisher init failure " D st (Publisher_setTxTimeout tx_timeout p), n').
Proof.
  destruct (Publisher_init (Publisher_new D n) n) as [[st p] n'] eqn:E.
  unfold makePublisher, bind at 1, this. unfold bind at 1, core.
  rewrite E. apply enforce_enforced.
Qed.

Lemma makeServiceServer_enforced D cb n :
  let '(st, p, n') := ServiceServer_start cb (ServiceServer_new D n) n in
  makeServiceServer D cb n = (enforced "ServiceServer start failure " D st p, n').
Proof.
  destruct (ServiceServer_start cb (ServiceServer_new D n) n) as [[st p] n'] eqn:E.
  unfold makeServiceServer, bind at 1, this. unfold bind at 1, core.
  rewrite E. apply enforce_enforced.
Qed.

Lemma makeServiceClient_enforced D cb n :
  let '(st, p, n') := ServiceClient_init (ServiceClient_new D n) n in
  makeServiceClient D cb n
  = (enforced "ServiceClient init failure " D st (ServiceClient_setCallback cb p), n').
Proof.
  destruct (ServiceClient_init (ServiceClient_new D n) n) as [[st p] n'] eqn:E.
  unfold makeServiceClient, bind at 1, this. unfold bind at 1, core.
  rewrite E. apply enforce_enforced.
Qed.

(** C6. Each endpoint factory runs the primitive's [start]/[init] and then
    throws an exception whose message carries the data-type name and the
    status when that status is negative (no handle is returned), and returns
    the handle when it is not.  The message carries them for good: the
    bracketed text is the decimal numeral of the status, which reads back as
    the status, and under one factory's prefix the message has one type name
    and one status only. *)
Theorem factories_enforce_status :
  forall (D : DataTypeInfo) (n : UNode),
    (forall cb,
        let '(st, p, n') := Subscriber_start cb (Subscriber_new D n) n in
        makeSubscriber D cb n
        = (if st <? 0
           then inl (Exception ("Subscriber start failure " ++ getDataTypeFullName D
                                ++ " [" ++ show_int st ++ "]"))
           else inr p, n'))
    /\ (forall tx_timeout,
        let '(st, p, n') := Publisher_init (Publisher_new D n) n in
        makePublisher D tx_timeout n
        = (if st <? 0
           then inl (Exception ("Publisher init failure " ++ getDataTypeFullName D
                                ++ " [" ++ show_int st ++ "]"))
           else inr (Publisher_setTxTimeout tx_timeout p), n'))
    /\ (forall cb,
        let '(st, p, n') := ServiceServer_start cb (ServiceServer_new D n) n in
        makeServiceServer D cb n
        = (if st <? 0
           then inl (Exception ("ServiceServer start failure " ++ getDataTypeFullName D
                                ++ " [" ++ show_int st ++ "]"))
           else inr p, n'))
    /\ (forall cb,
        let '(st, p, n') := ServiceClient_init (ServiceClient_new D n) n in
        makeServiceClient D cb n
        = (if st <? 0
           then inl (Exception ("ServiceClient init failure " ++ getDataTypeFullName D
                                ++ " [" ++ show_int st ++ "]"))
           else inr (ServiceClient_setCallback cb p), n'))
    /\ (forall st, option_map Z.of_int (NilZero.int_of_string (show_int st)) = Some st)
    /\ (forall st1 st2, show_int st1 = show_int st2 -> st1 = st2)
    /\ (forall what_failed name1 name2 st1 st2,
        what_failed ++ name1 ++ " [" ++ show_int st1 ++ "]"
        = what_failed ++ name2 ++ " [" ++ show_int st2 ++ "]" ->
        name1 = name2 /\ st1 = st2).
Proof.
  intros D n. repeat split; intros.
  - exact (makeSubscriber_enforced D cb n).
  - exact (makePublisher_enforced D tx_timeout n).
  - exact (makeServiceServer_enforced D cb n).
  - exact (makeServiceClient_enforced D cb n).
  - apply show_int_reads_back.
  - now apply show_int_inj.
  - rewrite <- (append_assoc what_failed name1), <- (append_assoc what_failed name2) in H0.
    destruct (bracket_split _ _ _ _ (show_int_no_bracket st1)
                (show_int_no_bracket st2) H0) as [Hhead _].
    exact (append_cancel_l _ _ _ Hhead).
  - rewrite <- (append_assoc what_failed name1), <- (append_assoc what_failed name2) in H0.
    destruct (bracket_split _ _ _ _ (show_int_no_bracket st1)
                (show_int_no_bracket st2) H0) as [_ Hshow].
    exact (show_int_inj _ _ Hshow).
Qed.

End FactoryProperties.

Lemma enforced_negative {P : Type} (what_failed : string) D st (p : P) :
  st < 0 ->
  enforced what_failed D st p
  = inl (Exception (what_failed ++ getDataTypeFullName D ++ " [" ++ show_int st ++ "]")).
Proof.
  intros Hneg. unfold enforced.
  destruct (Z.ltb_spec st 0); [reflexivity | lia].
Qed.

Lemma enforced_nonnegative {P : Type} (what_failed : string) D st (p : P) :
  0 <= st -> enforced what_failed D st p = inr p.
Proof.
  intros Hpos. unfold enforced.
  destruct (Z.ltb_spec st 0); [lia | reflexivity].
Qed.

(** ** [makeNode] *)

Section MakeNodeProperties.
Context `{LinuxHost}.

Lemma addIface_attached c ifn :
  0 <= attach_status (ifaces_ c) ifn ->
  addIface c ifn
  = (attach_status (ifaces_ c) ifn, mkSocketCanDriver (can_clock c) (ifaces_ c ++ [ifn])).
Proof.
  intros Hok. unfold addIface. cbv zeta.
  destruct (Z.ltb_spec (attach_status (ifaces_ c) ifn) 0); [lia | reflexivity].
Qed.

Lemma addIface_refused c ifn :
  attach_status (ifaces_ c) ifn < 0 ->
  addIface c ifn = (attach_status (ifaces_ c) ifn, c).
Proof.
  intros Hneg. unfold addIface. cbv zeta.
  destruct (Z.ltb_spec (attach_status (ifaces_ c) ifn) 0); [reflexivity | lia].
Qed.

Lemma addIfaces_all_attach : forall names c,
  all_attach (ifaces_ c) names = true ->
  addIfaces c names = inr (mkSocketCanDriver (can_clock c) (ifaces_ c ++ names)).
Proof.
  induction names as [| ifn rest IH]; intros c Hall; cbn [addIfaces all_attach] in *.
  - rewrite app_nil_r. now destruct c.
  - apply andb_true_iff in Hall. destruct Hall as [Hst Hrest].
    apply Z.leb_le in Hst. rewrite (addIface_attached _ _ Hst).
    destruct (Z.ltb_spec (attach_status (ifaces_ c) ifn) 0) as [Hneg | _]; [lia |].
    rewrite IH; cbn [ifaces_ can_clock]; [| exact Hrest].
    now rewrite <- app_assoc.
Qed.

Lemma addIfaces_first_failure : forall pre c ifn post,
  all_attach (ifaces_ c) pre = true ->
  attach_status (ifaces_ c ++ pre) ifn < 0 ->
  addIfaces c (pre ++ ifn :: post) = inl (Exception ("Failed to add iface " ++ ifn)).
Proof.
  induction pre as [| x pre IH]; intros c ifn post Hall Hneg;
    cbn [addIfaces all_attach app] in *.
  - rewrite app_nil_r in Hneg. rewrite (addIface_refused _ _ Hneg).
    destruct (Z.ltb_spec (attach_status (ifaces_ c) ifn) 0); [reflexivity | lia].
  - apply andb_true_iff in Hall. destruct Hall as [Hst Hrest].
    apply Z.leb_le in Hst. rewrite (addIface_attached _ _ Hst).
    destruct (Z.ltb_spec (attach_status (ifaces_ c) x) 0) as [Hx | _]; [lia |].
    apply IH; cbn [ifaces_]; [exact Hrest |].
    now rewrite <- app_assoc.
Qed.

Lemma all_attach_false_split : forall names attached,
  all_attach attached names = false ->
  exists pre ifn post,
    names = (pre ++ ifn :: post)%list
    /\ all_attach attached pre = true
    /\ attach_status (attached ++ pre) ifn < 0.
Proof.
  induction names as [| x rest IH]; intros attached Hfalse; simpl in *.
  - discriminate.
  - destruct (Z.leb_spec 0 (attach_status attached x)) as [Hok | Hneg]; simpl in Hfalse.
    + destruct (IH _ Hfalse) as (pre & ifn & post & -> & Hpre & Hifn).
      exists (x :: pre), ifn, post. simpl.
      rewrite <- app_assoc in Hifn. simpl in Hifn.
      repeat split; [| exact Hifn].
      apply andb_true_iff. split; [now apply Z.leb_le | exact Hpre].
    + exists [], x, rest. simpl. rewrite app_nil_r. auto.
Qed.

(** C5. [makeNode] tries the names in list order.  It returns a node exactly
    when every name attaches, and that node owns a driver pack whose driver
    holds exactly the given names, in order; when a name fails after the names
    before it attached, it throws the exception that names it and returns no
    node; and when not every name attaches there is such a first failing
    name. *)
Theorem makeNode_all_or_nothing :
  forall (iface_names : list string) (mode : ClockAdjustmentMode),
    (all_attach [] iface_names = true <-> exists node, makeNode iface_names mode = inr node)
    /\ (all_attach [] iface_names = true ->
        makeNode iface_names mode
        = inr (mkNode (Some (mkDriverPack (mkSystemClock mode)
                               (mkSocketCanDriver (mkSystemClock mode) iface_names)))
                      true))
    /\ (forall pre ifn post,
        iface_names = (pre ++ ifn :: post)%list ->
        all_attach [] pre = true ->
        attach_status pre ifn < 0 ->
        makeNode iface_names mode = inl (Exception ("Failed to add iface " ++ ifn)))
    /\ (all_attach [] iface_names = false ->
        exists pre ifn post,
          iface_names = (pre ++ ifn :: post)%list
          /\ all_attach [] pre = true
          /\ attach_status pre ifn < 0).
Proof.
  intros names mode.
  assert (Hok : all_attach [] names = true ->
                makeNode names mode
                = inr (mkNode (Some (mkDriverPack (mkSystemClock mode)
                                       (mkSocketCanDriver (mkSystemClock mode) names)))
                              true)).
  { intros Hall. unfold makeNode, DriverPack_new. simpl.
    now rewrite addIfaces_all_attach. }
  assert (Hfail : forall pre ifn post,
             names = (pre ++ ifn :: post)%list ->
             all_attach [] pre = true ->
             attach_status pre ifn < 0 ->
             makeNode names mode = inl (Exception ("Failed to add iface " ++ ifn))).
  { intros pre ifn post -> Hpre Hneg. unfold makeNode, DriverPack_new. simpl.
    now rewrite addIfaces_first_failure. }
  split; [| split; [exact Hok | split; [exact Hfail |]]].
  - split.
    + intros Hall. eexists. now apply Hok.
    + intros [node Hnode].
      destruct (all_attach [] names) eqn:Hall; [reflexivity |].
      destruct (all_attach_false_split _ _ Hall) as (pre & ifn & post & Hsplit & Hpre & Hneg).
      rewrite (Hfail pre ifn post Hsplit Hpre Hneg) in Hnode. discriminate.
  - intros Hall. exact (all_attach_false_split _ _ Hall).
Qed.

End MakeNodeProperties.

(** ** Concrete hosts and cores *)

Example makeNode_two_interfaces :
  exists node,
    @makeNode (HostWith ["can0"; "can1"] 3) ["can0"; "can1"] true = inr node
    /\ option_map (fun dp => ifaces_ (can dp)) (driver_pack_ node) = Some ["can0"; "can1"].
Proof. eexists. split; reflexivity. Qed.

Example makeNode_missing_interface :
  @makeNode (HostWith ["can0"; "can1"] 3) ["can0"; "vcan7"; "can1"] true
  = inl (Exception "Failed to add iface vcan7").
Proof. reflexivity. Qed.

Example makeNode_driver_full :
  @makeNode (HostWith ["can0"; "can1"] 1) ["can0"; "can1"] true
  = inl (Exception "Failed to add iface can1").
Proof. reflexivity. Qed.

Example makeSubscriber_out_of_memory :
  @makeSubscriber (FixedCore (-3)) NodeStatus tt 0%nat
  = (inl (Exception "Subscriber start failure uavcan.protocol.NodeStatus [-3]"), 0%nat).
Proof. reflexivity. Qed.

Example makePublisher_started :
  @makePublisher (FixedCore 0) NodeStatus 5 0%nat = (inr (NodeStatus, 5), 1%nat).
Proof. reflexivity. Qed.

(** ** The kinds of error *)

Section ErrorKinds.
Context `{UavcanCore} `{LinuxHost}.

Lemma addIfaces_thrown : forall names c e,
  addIfaces c names = inl e ->
  exists ifn, In ifn names /\ e = Exception ("Failed to add iface " ++ ifn).
Proof.
  induction names as [| x rest IH]; intros c e Hthrow; cbn [addIfaces] in Hthrow.
  - discriminate.
  - destruct (addIface c x) as [st c'].
    destruct (st <? 0).
    + injection Hthrow as <-. exists x. split; [now left | reflexivity].
    + destruct (IH _ _ Hthrow) as (ifn & Hin & ->).
      exists ifn. split; [now right | reflexivity].
Qed.

Lemma makeNode_thrown names mode e :
  makeNode names mode = inl e ->
  exists ifn, In ifn names /\ e = Exception ("Failed to add iface " ++ ifn).
Proof.
  unfold makeNode. intros Hthrow.
  destruct (addIfaces (can (DriverPack_new mode)) names) as [e' | c] eqn:E.
  - injection Hthrow as <-. exact (addIfaces_thrown _ _ _ E).
  - discriminate.
Qed.

Lemma enforced_thrown {P : Type} what_failed D st (p : P) e :
  enforced what_failed D st p = inl e ->
  e = Exception (what_failed ++ getDataTypeFullName D ++ " [" ++ show_int st ++ "]").
Proof.
  unfold enforced. destruct (st <? 0); intros Heq; [now injection Heq | discriminate].
Qed.

Lemma endpoint_factory_message D n e :
  endpoint_factory_throws D n e ->
  exists tail,
    what e = "Subscriber start failure " ++ tail
    \/ what e = "Publisher init failure " ++ tail
    \/ what e = "ServiceServer start failure " ++ tail
    \/ what e = "ServiceClient init failure " ++ tail.
Proof.
  intros [[cb Hthrow] | [[tx Hthrow] | [[cb Hthrow] | [cb Hthrow]]]].
  - pose proof (makeSubscriber_enforced D cb n) as Hm.
    destruct (Subscriber_start cb (Subscriber_new D n) n) as [[st p] n'].
    rewrite Hm in Hthrow. apply enforced_thrown in Hthrow. subst e.
    eexists. left. reflexivity.
  - pose proof (makePublisher_enforced D tx n) as Hm.
    destruct (Publisher_init (Publisher_new D n) n) as [[st p] n'].
    rewrite Hm in Hthrow. apply enforced_thrown in Hthrow. subst e.
    eexists. right. left. reflexivity.
  - pose proof (makeServiceServer_enforced D cb n) as Hm.
    destruct (ServiceServer_start cb (ServiceServer_new D n) n) as [[st p] n'].
    rewrite Hm in Hthrow. apply enforced_thrown in Hthrow. subst e.
    eexists. right. right. left. reflexivity.
  - pose proof (makeServiceClient_enforced D cb n) as Hm.
    destruct (ServiceClient_init (ServiceClient_new D n) n) as [[st p] n'].
    rewrite Hm in Hthrow. apply enforced_thrown in Hthrow. subst e.
    eexists. right. right. right. reflexivity.
Qed.

Lemma enforced_thrown_negative {P : Type} what_failed D st (p : P) e :
  enforced what_failed D st p = inl e -> st < 0.
Proof.
  unfold enforced. destruct (Z.ltb_spec st 0); intros Heq; [assumption | discriminate].
Qed.

(** An endpoint factory that throws is one of the four, and its
    [start]/[init] answered a negative status, which the message shows after
    the factory's prefix and the type name. *)
Lemma endpoint_factory_throws_shape D n e :
  endpoint_factory_throws D n e ->
  exists k st,
    factory_throws k D st e
    /\ st < 0
    /\ what e = failure_prefix k ++ getDataTypeFullName D ++ " [" ++ show_int st ++ "]".
Proof.
  intros [[cb Hthrow] | [[tx Hthrow] | [[cb Hthrow] | [cb Hthrow]]]].
  - exists ESubscriber, (fst (fst (Subscriber_start cb (Subscriber_new D n) n))).
    split; [exists cb, n; split; [reflexivity | exact Hthrow] |].
    pose proof (makeSubscriber_enforced D cb n) as Hm.
    destruct (Subscriber_start cb (Subscriber_new D n) n) as [[st p] n'].
    rewrite Hm in Hthrow. cbn [fst] in *.
    split; [exact (enforced_thrown_negative _ _ _ _ _ Hthrow) |].
    now rewrite (enforced_thrown _ _ _ _ _ Hthrow).
  - exists EPublisher, (fst (fst (Publisher_init (Publisher_new D n) n))).
    split; [exists tx, n; split; [reflexivity | exact Hthrow] |].
    pose proof (makePublisher_enforced D tx n) as Hm.
    destruct (Publisher_init (Publisher_new D n) n) as [[st p] n'].
    rewrite Hm in Hthrow. cbn [fst] in *.
    split; [exact (enforced_thrown_negative _ _ _ _ _ Hthrow) |].
    now rewrite (enforced_thrown _ _ _ _ _ Hthrow).
  - exists EServiceServer, (fst (fst (ServiceServer_start cb (ServiceServer_new D n) n))).
    split; [exists cb, n; split; [reflexivity | exact Hthrow] |].
    pose proof (makeServiceServer_enforced D cb n) as Hm.
    destruct (ServiceServer_start cb (ServiceServer_new D n) n) as [[st p] n'].
    rewrite Hm in Hthrow. cbn [fst] in *.
    split; [exact (enforced_thrown_negative _ _ _ _ _ Hthrow) |].
    now rewrite (enforced_thrown _ _ _ _ _ Hthrow).
  - exists EServiceClient, (fst (fst (ServiceClient_init (ServiceClient_new D n) n))).
    split; [exists cb, n; split; [reflexivity | exact Hthrow] |].
    pose proof (makeServiceClient_enforced D cb n) as Hm.
    destruct (ServiceClient_init (ServiceClient_new D n) n) as [[st p] n'].
    rewrite Hm in Hthrow. cbn [fst] in *.
    split; [exact (enforced_thrown_negative _ _ _ _ _ Hthrow) |].
    now rewrite (enforced_thrown _ _ _ _ _ Hthrow).
Qed.

(** The message of an endpoint factory reads in one way only. *)
Lemma factory_message_reads_one_way k1 k2 name1 name2 st1 st2 :
  failure_prefix k1 ++ name1 ++ " [" ++ show_int st1 ++ "]"
  = failure_prefix k2 ++ name2 ++ " [" ++ show_int st2 ++ "]" ->
  k1 = k2 /\ name1 = name2 /\ st1 = st2.
Proof.
  intros Heq.
  rewrite <- (append_assoc (failure_prefix k1) name1),
          <- (append_assoc (failure_prefix k2) name2) in Heq.
  destruct (bracket_split _ _ _ _ (show_int_no_bracket st1)
              (show_int_no_bracket st2) Heq) as [Hhead Hshow].
  apply show_int_inj in Hshow.
  assert (Hk : k1 = k2).
  { destruct k1, k2; try reflexivity;
      cbn [failure_prefix append] in Hhead; discriminate Hhead. }
  subst k2. apply append_cancel_l in Hhead. auto.
Qed.

(** C7, as amended. What the [throw] of [makeNode] throws and what the
    [throw] of [enforce] throws in an endpoint factory are objects of the one
    class of the header, so the class tells nothing apart.  They differ in
    their message text only: the message of [makeNode] is
    "Failed to add iface " and a name of the list; the message of an endpoint
    factory is the prefix of that factory, the data-type name and the negative
    status in brackets, from which the factory, the type name and the status
    read back in one way; and the two messages are never equal. *)
Theorem failures_differ_in_message_only :
  forall (iface_names : list string) (mode : ClockAdjustmentMode)
         (D : DataTypeInfo) (n : UNode) (e1 e2 : Thrown),
    makeNode iface_names mode = inl e1 ->
    endpoint_factory_throws D n e2 ->
    (exception_class e1 = UavcanLinuxException
     /\ exception_class e2 = UavcanLinuxException
     /\ exception_class e1 = exception_class e2)
    /\ (exists ifn, In ifn iface_names /\ what e1 = "Failed to add iface " ++ ifn)
    /\ (exists k st,
          factory_throws k D st e2
          /\ st < 0
          /\ what e2
             = failure_prefix k ++ getDataTypeFullName D ++ " [" ++ show_int st ++ "]"
          /\ option_map Z.of_int (NilZero.int_of_string (show_int st)) = Some st
          /\ forall k' name' st',
               what e2 = failure_prefix k' ++ name' ++ " [" ++ show_int st' ++ "]" ->
               k' = k /\ name' = getDataTypeFullName D /\ st' = st)
    /\ what e1 <> what e2.
Proof.
  intros names mode D n e1 e2 Hnode Hend.
  destruct (makeNode_thrown _ _ _ Hnode) as (ifn & Hin & ->).
  destruct (endpoint_factory_message _ _ _ Hend) as (tail & Hmsg).
  destruct (endpoint_factory_throws_shape _ _ _ Hend) as (k & st & Hk & Hneg & Hwhat).
  split; [| split; [| split]].
  - destruct e2. repeat split.
  - exists ifn. split; [exact Hin | reflexivity].
  - exists k, st. split; [exact Hk | split; [exact Hneg | split; [exact Hwhat | split]]].
    + apply show_int_reads_back.
    + intros k' name' st' Hread. rewrite Hwhat in Hread.
      destruct (factory_message_reads_one_way _ _ _ _ _ _ Hread) as (-> & -> & ->).
      repeat split.
  - cbn [what]. intros Heq.
    destruct Hmsg as [Hm | [Hm | [Hm | Hm]]]; rewrite Hm in Heq;
      cbn [append] in Heq; discriminate Heq.
Qed.

End ErrorKinds.

(** C7, counterexample. Node construction fails on an interface the host does
    not have, a subscriber fails to start for lack of memory and another on a
    rejected parameter: the three thrown objects have the same class. *)
Lemma error_kinds_coincide :
  exists e1 e2 e3,
    @makeNode (HostWith ["can0"] 3) ["vcan7"] true = inl e1
    /\ fst (@makeSubscriber (FixedCore (-3)) NodeStatus tt 0%nat) = inl e2
    /\ fst (@makeSubscriber (FixedCore (-2)) NodeStatus tt 0%nat) = inl e3
    /\ exception_class e1 = exception_class e2
    /\ exception_class e2 = exception_class e3.
Proof.
  do 3 eexists. repeat split.
Qed.

Lemma failures_differ_in_message_only_witness :
  @makeNode (HostWith ["can0"] 3) ["vcan7"] true
  = inl (Exception "Failed to add iface vcan7")
  /\ @endpoint_factory_throws (FixedCore (-3)) NodeStatus 0%nat
       (Exception "Subscriber start failure uavcan.protocol.NodeStatus [-3]")
  /\ (exists k st,
        @factory_throws (FixedCore (-3)) k NodeStatus st
          (Exception "Subscriber start failure uavcan.protocol.NodeStatus [-3]")
        /\ st < 0
        /\ "Subscriber start failure uavcan.protocol.NodeStatus [-3]"
           = failure_prefix k ++ "uavcan.protocol.NodeStatus" ++ " [" ++ show_int st ++ "]")
  /\ what (Exception "Failed to add iface vcan7")
     <> what (Exception "Subscriber start failure uavcan.protocol.NodeStatus [-3]").
Proof.
  assert (Hnode : @makeNode (HostWith ["can0"] 3) ["vcan7"] true
                  = inl (Exception "Failed to add iface vcan7")) by reflexivity.
  assert (Hend : @endpoint_factory_throws (FixedCore (-3)) NodeStatus 0%nat
                   (Exception "Subscriber start failure uavcan.protocol.NodeStatus [-3]")).
  { left. exists tt. reflexivity. }
  split; [exact Hnode | split; [exact Hend |]].
  destruct (@failures_differ_in_message_only (FixedCore (-3)) (HostWith ["can0"] 3)
              ["vcan7"] true NodeStatus 0%nat _ _ Hnode Hend)
    as (_ & _ & (k & st & Hk & Hneg & Hwhat & _) & Hdiff).
  split; [exists k, st; split; [exact Hk | split; [exact Hneg | exact Hwhat]] | exact Hdiff].
Defined.

(** ** [BlockingServiceClient] *)

Section BlockingProperties.
Context `{ServiceRuntime}.

(** *** The loop *)

Lemma spin_loop_unfold fuel call_res s :
  spin_loop (S fuel) call_res s
  = if Super_isPending (world s)
    then let '(spin_res, s2) := do_spin SpinDuration (record (EvIsPending true) s) in
         if spin_res <? 0 then Some (spin_res, s2) else spin_loop fuel call_res s2
    else Some (call_res, record (EvIsPending false) s).
Proof.
  cbn [spin_loop]. unfold do_isPending.
  destruct (Super_isPending (world s)); reflexivity.
Qed.

(** The loop leaves as soon as the call is found resolved, with the issuance
    status. *)
Lemma spin_loop_exits : forall s k s',
  spins_through s k s' ->
  Super_isPending (world s') = false ->
  forall fuel call_res, (k < fuel)%nat ->
    spin_loop fuel call_res s = Some (call_res, record (EvIsPending false) s').
Proof.
  induction 1 as [s | s st s1 k s' Hpending Hspin Hst _ IH]; intros Hdone fuel call_res Hfuel.
  - destruct fuel as [| fuel]; [lia |].
    rewrite spin_loop_unfold, Hdone. reflexivity.
  - destruct fuel as [| fuel]; [lia |].
    rewrite spin_loop_unfold, Hpending, Hspin.
    destruct (Z.ltb_spec st 0); [lia |].
    apply IH; [exact Hdone | lia].
Qed.

(** The loop leaves at the first negative [spin] status, with that status and
    in the state that [spin] left. *)
Lemma spin_loop_aborts : forall s k s',
  spins_through s k s' ->
  Super_isPending (world s') = true ->
  forall e s'', do_spin SpinDuration (record (EvIsPending true) s') = (e, s'') ->
    e < 0 ->
    forall fuel call_res, (k < fuel)%nat ->
      spin_loop fuel call_res s = Some (e, s'').
Proof.
  induction 1 as [s | s st s1 k s' Hpending Hspin Hst _ IH];
    intros Hstill e s'' Hlast Hneg fuel call_res Hfuel.
  - destruct fuel as [| fuel]; [lia |].
    rewrite spin_loop_unfold, Hstill, Hlast.
    destruct (Z.ltb_spec e 0); [reflexivity | lia].
  - destruct fuel as [| fuel]; [lia |].
    rewrite spin_loop_unfold, Hpending, Hspin.
    destruct (Z.ltb_spec st 0); [lia |].
    apply (IH Hstill e s'' Hlast Hneg). lia.
Qed.

(** Whatever the fuel, a loop that returns either returns the issuance status
    with the call resolved, or a negative status. *)
Lemma spin_loop_returns : forall fuel call_res s r s',
  spin_loop fuel call_res s = Some (r, s') ->
  (r = call_res /\ Super_isPending (world s') = false) \/ r < 0.
Proof.
  induction fuel as [| fuel IH]; intros call_res s r s' Hrun.
  - discriminate.
  - rewrite spin_loop_unfold in Hrun.
    destruct (Super_isPending (world s)) eqn:Hpending.
    + destruct (do_spin SpinDuration (record (EvIsPending true) s)) as [st s2].
      destruct (Z.ltb_spec st 0).
      * injection Hrun as <- <-. now right.
      * exact (IH _ _ _ _ Hrun).
    + injection Hrun as <- <-. left. split; [reflexivity | exact Hpending].
Qed.

(** *** What the core's deliveries do to the log and to the members *)

Lemma spins_in_app l1 l2 : spins_in (l1 ++ l2) = (spins_in l1 + spins_in l2)%nat.
Proof.
  induction l1 as [| e l1 IH]; [reflexivity |].
  destruct e; cbn [app spins_in]; rewrite IH; reflexivity.
Qed.

Lemma invoke_spins s res : spins_in (log (invoke s res)) = spins_in (log s).
Proof.
  unfold invoke. destruct (super_callback (client s)); reflexivity.
Qed.

Lemma deliver_spins : forall results s,
  spins_in (log (deliver results s)) = spins_in (log s).
Proof.
  unfold deliver.
  induction results as [| res results IH]; intros s; cbn [fold_left].
  - reflexivity.
  - rewrite IH. apply invoke_spins.
Qed.

Lemma do_spin_spins d s :
  spins_in (log (snd (do_spin d s))) = S (spins_in (log s)).
Proof.
  unfold do_spin. destruct (Node_spin d (world s)) as [[st results] w].
  cbn [snd record log spins_in]. now rewrite deliver_spins.
Qed.

Lemma do_call_spins id req s :
  spins_in (log (snd (do_call id req s))) = spins_in (log s).
Proof.
  unfold do_call. destruct (Super_call id req (world s)) as [[st results] w].
  cbn [snd record log spins_in]. now rewrite deliver_spins.
Qed.

Lemma spins_through_count : forall s k s',
  spins_through s k s' -> spins_in (log s') = (spins_in (log s) + k)%nat.
Proof.
  induction 1 as [s | s st s1 k s' _ Hspin _ _ IH]; [lia |].
  rewrite IH.
  pose proof (do_spin_spins SpinDuration (record (EvIsPending true) s)) as Hone.
  rewrite Hspin in Hone. cbn [snd record log spins_in] in Hone. lia.
Qed.

(** C1. When the call is issued with a non-negative status and, after [k]
    iterations that found the call pending and spun without error, the next
    [spin] answers a negative status [e] while the call is still pending,
    [blockingCall] returns [e] in the very state that [spin] left: it has made
    [k + 1] spins and no more, however long the request timeout. *)
Theorem blockingCall_returns_spin_error :
  forall (fuel : nat) (id : NodeID) (req : Request) (s : Sys)
         (call_res : Z) (s1 : Sys) (k : nat) (s2 : Sys) (e : Z) (s3 : Sys),
    do_call id req (setup s) = (call_res, s1) ->
    0 <= call_res ->
    spins_through s1 k s2 ->
    Super_isPending (world s2) = true ->
    do_spin SpinDuration (record (EvIsPending true) s2) = (e, s3) ->
    e < 0 ->
    (k < fuel)%nat ->
    blockingCall fuel id req s = Some (e, s3)
    /\ spins_in (log s3) = (spins_in (log s) + k + 1)%nat
    /\ exists older, log s3 = EvSpin SpinDuration e :: older.
Proof.
  intros fuel id req s call_res s1 k s2 e s3 Hcall Hissued Hsteps Hstill Hlast Hneg Hfuel.
  split; [| split].
  - unfold blockingCall. cbv zeta. rewrite Hcall.
    destruct (Z.leb_spec 0 call_res); [| lia].
    exact (spin_loop_aborts _ _ _ Hsteps Hstill _ _ Hlast Hneg _ _ Hfuel).
  - pose proof (do_spin_spins SpinDuration (record (EvIsPending true) s2)) as Hone.
    rewrite Hlast in Hone. cbn [snd record log spins_in] in Hone.
    rewrite Hone, (spins_through_count _ _ _ Hsteps).
    pose proof (do_call_spins id req (setup s)) as Hzero.
    rewrite Hcall in Hzero. cbn [snd setup log spins_in] in Hzero. lia.
  - unfold do_spin in Hlast.
    destruct (Node_spin SpinDuration (world (record (EvIsPending true) s2)))
      as [[st results] w].
    injection Hlast as <- <-. eexists. reflexivity.
Qed.

(** C2. When issuing the call answers a negative status, [blockingCall]
    returns that status in the state the issuance left, whatever the fuel: the
    loop is not entered and no [spin] is made. *)
Theorem blockingCall_returns_issuance_error :
  forall (fuel : nat) (id : NodeID) (req : Request) (s : Sys) (call_res : Z) (s1 : Sys),
    do_call id req (setup s) = (call_res, s1) ->
    call_res < 0 ->
    blockingCall fuel id req s = Some (call_res, s1)
    /\ spins_in (log s1) = spins_in (log s).
Proof.
  intros fuel id req s call_res s1 Hcall Hneg. split.
  - unfold blockingCall. cbv zeta. rewrite Hcall.
    destruct (Z.leb_spec 0 call_res); [lia | reflexivity].
  - pose proof (do_call_spins id req (setup s)) as Hzero.
    rewrite Hcall in Hzero. exact Hzero.
Qed.

(** C3. When the call is issued with a non-negative status and the loop finds
    it resolved after [k] iterations whose spins answered no negative status,
    [blockingCall] returns the issuance status; the success flag and the
    response of the resolved call play no part in the returned value. *)
Theorem blockingCall_returns_issuance_status :
  forall (fuel : nat) (id : NodeID) (req : Request) (s : Sys)
         (call_res : Z) (s1 : Sys) (k : nat) (s2 : Sys),
    do_call id req (setup s) = (call_res, s1) ->
    0 <= call_res ->
    spins_through s1 k s2 ->
    Super_isPending (world s2) = false ->
    (k < fuel)%nat ->
    blockingCall fuel id req s = Some (call_res, record (EvIsPending false) s2).
Proof.
  intros fuel id req s call_res s1 k s2 Hcall Hissued Hsteps Hdone Hfuel.
  unfold blockingCall. cbv zeta. rewrite Hcall.
  destruct (Z.leb_spec 0 call_res); [| lia].
  exact (spin_loop_exits _ _ _ Hsteps Hdone _ _ Hfuel).
Qed.

(** C9. A [blockingCall] that returns a non-negative status returns with the
    wrapped call no longer pending. *)
Theorem blockingCall_nonnegative_resolved :
  forall (fuel : nat) (id : NodeID) (req : Request) (s : Sys) (r : Z) (s' : Sys),
    blockingCall fuel id req s = Some (r, s') ->
    0 <= r ->
    Super_isPending (world s') = false.
Proof.
  intros fuel id req s r s' Hrun Hpos.
  unfold blockingCall in Hrun. cbv zeta in Hrun.
  destruct (do_call id req (setup s)) as [call_res s1].
  destruct (Z.leb_spec 0 call_res).
  - destruct (spin_loop_returns _ _ _ _ _ Hrun) as [[_ Hdone] | Hneg]; [exact Hdone | lia].
  - injection Hrun as <- <-. lia.
Qed.

End BlockingProperties.

Section BlockingTraces.
Context `{ServiceRuntime}.
Local Open Scope list_scope.

Lemma replay_app l1 l2 m : replay (l1 ++ l2) m = replay l1 (replay l2 m).
Proof.
  induction l1 as [| e l1 IH]; [reflexivity |].
  destruct e; cbn [app replay]; rewrite IH; reflexivity.
Qed.

(** With the callback of [setup] in the slot, the deliveries of the core add
    callback events to the log and run [callback] on the members. *)
Lemma deliver_trace : forall results s,
  super_callback (client s) = Some callback ->
  exists cbs,
    forallb passive_event cbs = true
    /\ deliver results s
       = mkSys (mkClient (Some callback) (replay cbs (members (client s))))
               (world s) (cbs ++ log s).
Proof.
  unfold deliver.
  induction results as [| res results IH]; intros s Hbound; cbn [fold_left].
  - exists []. split; [reflexivity |].
    destruct s as [[cb m] w l]. cbn in *. now subst cb.
  - assert (Hinv : invoke s res
                   = mkSys (mkClient (Some callback) (callback res (members (client s))))
                           (world s) (EvCallback res :: log s)).
    { unfold invoke. now rewrite Hbound. }
    destruct (IH (invoke s res)) as (cbs & Hpassive & Heq).
    { now rewrite Hinv. }
    exists (cbs ++ [EvCallback res]). split.
    + rewrite forallb_app, Hpassive. reflexivity.
    + rewrite Heq, Hinv. cbn [client members world log].
      now rewrite replay_app, <- app_assoc.
Qed.

Lemma do_spin_follows d s :
  super_callback (client s) = Some callback ->
  exists cbs, forallb passive_event cbs = true
    /\ follows s (snd (do_spin d s)) (EvSpin d (fst (do_spin d s)) :: cbs).
Proof.
  intros Hbound. unfold do_spin.
  destruct (Node_spin d (world s)) as [[st results] w].
  destruct (deliver_trace results (mkSys (client s) w (log s)) Hbound)
    as (cbs & Hpassive & Heq).
  exists cbs. split; [exact Hpassive |].
  cbn [fst snd]. rewrite Heq. repeat split.
Qed.

Lemma do_call_follows id req s :
  super_callback (client s) = Some callback ->
  exists cbs, forallb passive_event cbs = true
    /\ follows s (snd (do_call id req s)) (EvCall id req (fst (do_call id req s)) :: cbs).
Proof.
  intros Hbound. unfold do_call.
  destruct (Super_call id req (world s)) as [[st results] w].
  destruct (deliver_trace results (mkSys (client s) w (log s)) Hbound)
    as (cbs & Hpassive & Heq).
  exists cbs. split; [exact Hpassive |].
  cbn [fst snd]. rewrite Heq. repeat split.
Qed.

Lemma follows_trans s1 s2 s3 new1 new2 :
  follows s1 s2 new1 -> follows s2 s3 new2 -> follows s1 s3 (new2 ++ new1).
Proof.
  intros (Hlog1 & _ & Hm1) (Hlog2 & Hcb2 & Hm2). repeat split.
  - now rewrite Hlog2, Hlog1, app_assoc.
  - exact Hcb2.
  - now rewrite Hm2, Hm1, replay_app.
Qed.

Lemma spin_loop_follows : forall fuel call_res s r s',
  super_callback (client s) = Some callback ->
  spin_loop fuel call_res s = Some (r, s') ->
  exists new, forallb passive_event new = true /\ follows s s' new.
Proof.
  induction fuel as [| fuel IH]; intros call_res s r s' Hbound Hrun.
  - discriminate.
  - rewrite spin_loop_unfold in Hrun.
    destruct (Super_isPending (world s)).
    + destruct (do_spin_follows SpinDuration (record (EvIsPending true) s) Hbound)
        as (cbs & Hpassive & Hstep).
      destruct (do_spin SpinDuration (record (EvIsPending true) s)) as [st s2].
      cbn [fst snd] in Hstep.
      assert (Hone : follows s s2 (EvSpin SpinDuration st :: cbs ++ [EvIsPending true])).
      { destruct Hstep as (Hlog & Hcb & Hm). repeat split.
        - rewrite Hlog. cbn [record log app]. now rewrite <- app_assoc.
        - exact Hcb.
        - rewrite Hm. cbn [record client replay]. rewrite replay_app. reflexivity. }
      assert (Hquiet : forallb passive_event (EvSpin SpinDuration st :: cbs ++ [EvIsPending true])
                       = true).
      { cbn [forallb passive_event andb]. rewrite forallb_app, Hpassive. reflexivity. }
      destruct (st <? 0).
      * injection Hrun as <- <-. eexists. split; [exact Hquiet | exact Hone].
      * destruct Hone as (Hlog & Hcb & Hm).
        destruct (IH _ _ _ _ Hcb Hrun) as (new & Hnew & Hrest).
        exists (new ++ EvSpin SpinDuration st :: cbs ++ [EvIsPending true]). split.
        -- rewrite forallb_app, Hnew. exact Hquiet.
        -- exact (follows_trans _ _ _ _ _ (conj Hlog (conj Hcb Hm)) Hrest).
    + injection Hrun as <- <-. exists [EvIsPending false]. repeat split. exact Hbound.
Qed.

(** The log and the members after a [blockingCall]: [setup], then the call
    with the callbacks delivered while it was issued, then the events of the
    loop; the members are the reset ones after the callbacks of this call. *)
Lemma blockingCall_follows fuel id req s r s' :
  blockingCall fuel id req s = Some (r, s') ->
  exists post st pre,
    forallb passive_event post = true
    /\ forallb passive_event pre = true
    /\ log s' = post ++ EvCall id req st :: pre ++ EvSetCallback :: log s
    /\ super_callback (client s') = Some callback
    /\ members (client s') = replay (post ++ EvCall id req st :: pre) reset_members.
Proof.
  intros Hrun. unfold blockingCall in Hrun. cbv zeta in Hrun.
  destruct (do_call_follows id req (setup s) eq_refl) as (pre & Hpre & Hcall).
  destruct (do_call id req (setup s)) as [call_res s1]. cbn [fst snd] in Hcall.
  destruct Hcall as (Hlog1 & Hcb1 & Hm1). cbn [setup log client members] in Hlog1, Hm1.
  destruct (0 <=? call_res).
  - destruct (spin_loop_follows _ _ _ _ _ Hcb1 Hrun) as (post & Hpost & Hlog2 & Hcb2 & Hm2).
    exists post, call_res, pre. repeat split; try assumption.
    + rewrite Hlog2, Hlog1. reflexivity.
    + rewrite Hm2, Hm1, replay_app. reflexivity.
  - injection Hrun as <- <-.
    exists [], call_res, pre. repeat split; try assumption.
Qed.

End BlockingTraces.

Section BlockingOutcome.
Context `{ServiceRuntime}.
Local Open Scope list_scope.

(** C4. A [blockingCall] that returns has first run [setup], which leaves the
    success flag false and the response value-initialised, and only then
    issued the call; the flag and the response it leaves are those reset
    values after the callbacks delivered during this call, and the whole
    result is the same whatever the client object held before, so nothing of
    an earlier call, failed or not, shows through. *)
Theorem blockingCall_resets_outcome :
  forall (fuel : nat) (id : NodeID) (req : Request) (s : Sys) (r : Z) (s' : Sys),
    blockingCall fuel id req s = Some (r, s') ->
    (wasSuccessful (setup s) = false /\ getResponse (setup s) = Response_new)
    /\ (exists post st pre,
          log s' = post ++ EvCall id req st :: pre ++ EvSetCallback :: log s
          /\ wasSuccessful s'
             = call_was_successful_ (replay (post ++ EvCall id req st :: pre) reset_members)
          /\ getResponse s'
             = response_ (replay (post ++ EvCall id req st :: pre) reset_members))
    /\ (forall previous : BlockingServiceClient,
          blockingCall fuel id req (mkSys previous (world s) (log s)) = Some (r, s')).
Proof.
  intros fuel id req s r s' Hrun. split; [| split].
  - split; reflexivity.
  - destruct (blockingCall_follows _ _ _ _ _ _ Hrun)
      as (post & st & pre & _ & _ & Hlog & _ & Hm).
    exists post, st, pre. unfold wasSuccessful, getResponse.
    rewrite Hm. repeat split. exact Hlog.
  - intros previous. rewrite <- Hrun. reflexivity.
Qed.

(** *** The outcome while a call is pending *)

Lemma deliver_slot_world : forall results s,
  super_callback (client (deliver results s)) = super_callback (client s)
  /\ world (deliver results s) = world s.
Proof.
  unfold deliver.
  induction results as [| res results IH]; intros s; cbn [fold_left].
  - split; reflexivity.
  - destruct (IH (invoke s res)) as [Hcb Hw]. rewrite Hcb, Hw.
    unfold invoke. destruct (super_callback (client s)) eqn:E; cbn; auto.
Qed.

Lemma do_spin_keeps_reset d s :
  core_contract -> reset_while_pending s -> reset_while_pending (snd (do_spin d s)).
Proof.
  intros [_ Hspin] [Hbound Hreset]. unfold do_spin.
  destruct (Node_spin d (world s)) as [[st results] w] eqn:E.
  cbn [snd]. unfold reset_while_pending. cbn [record client world].
  destruct (deliver_slot_world results (mkSys (client s) w (log s))) as [Hcb Hw].
  rewrite Hcb, Hw. cbn [client world]. split; [exact Hbound |].
  intros Hpending. destruct (Hspin _ _ _ _ _ E Hpending) as [-> Hbefore].
  cbn. exact (Hreset Hbefore).
Qed.

Lemma record_keeps_reset e s :
  reset_while_pending s -> reset_while_pending (record e s).
Proof. intros Hinv. exact Hinv. Qed.

Lemma spin_loop_keeps_reset : forall fuel call_res s r s',
  core_contract -> reset_while_pending s ->
  spin_loop fuel call_res s = Some (r, s') ->
  reset_while_pending s'.
Proof.
  induction fuel as [| fuel IH]; intros call_res s r s' Hc Hinv Hrun.
  - discriminate.
  - rewrite spin_loop_unfold in Hrun.
    destruct (Super_isPending (world s)).
    + pose proof (do_spin_keeps_reset SpinDuration _ Hc
                    (record_keeps_reset (EvIsPending true) s Hinv)) as Hnext.
      destruct (do_spin SpinDuration (record (EvIsPending true) s)) as [st s2].
      cbn [snd] in Hnext.
      destruct (st <? 0).
      * injection Hrun as <- <-. exact Hnext.
      * exact (IH _ _ _ _ Hc Hnext Hrun).
    + injection Hrun as <- <-. exact (record_keeps_reset _ _ Hinv).
Qed.

Lemma do_call_after_setup_reset id req s :
  core_contract -> reset_while_pending (snd (do_call id req (setup s))).
Proof.
  intros [Hcall _]. unfold do_call.
  destruct (Super_call id req (world (setup s))) as [[st results] w] eqn:E.
  cbn [snd]. unfold reset_while_pending. cbn [record client world].
  destruct (deliver_slot_world results (mkSys (client (setup s)) w (log (setup s))))
    as [Hcb Hw].
  rewrite Hcb, Hw. cbn [client world setup]. split; [reflexivity |].
  intros Hpending. rewrite (Hcall _ _ _ _ _ _ E Hpending). reflexivity.
Qed.

Lemma blockingCall_establishes_reset fuel id req s r s' :
  core_contract ->
  blockingCall fuel id req s = Some (r, s') ->
  reset_while_pending s'.
Proof.
  intros Hc Hrun. unfold blockingCall in Hrun. cbv zeta in Hrun.
  pose proof (do_call_after_setup_reset id req s Hc) as Hissued.
  destruct (do_call id req (setup s)) as [call_res s1]. cbn [snd] in Hissued.
  destruct (0 <=? call_res).
  - exact (spin_loop_keeps_reset _ _ _ _ _ Hc Hissued Hrun).
  - injection Hrun as <- <-. exact Hissued.
Qed.

Lemma run_keeps_reset : forall fuel ops s s',
  core_contract -> reset_while_pending s ->
  run fuel ops s = Some s' ->
  reset_while_pending s'.
Proof.
  induction ops as [| op ops IH]; intros s s' Hc Hinv Hrun; cbn [run] in Hrun.
  - now injection Hrun as <-.
  - destruct (run_op fuel op s) as [s1 |] eqn:Hop; [| discriminate].
    apply (IH s1 s' Hc); [| exact Hrun].
    destruct op as [id req | id req t | d]; cbn [run_op] in Hop.
    + destruct (blockingCall fuel id req s) as [[r s2] |] eqn:E; [| discriminate].
      injection Hop as <-. exact (blockingCall_establishes_reset _ _ _ _ _ _ Hc E).
    + unfold blockingCall_timeout in Hop.
      destruct (blockingCall fuel id req (do_setRequestTimeout t s)) as [[r s2] |] eqn:E;
        [| discriminate].
      injection Hop as <-. exact (blockingCall_establishes_reset _ _ _ _ _ _ Hc E).
    + injection Hop as <-. exact (do_spin_keeps_reset d s Hc Hinv).
Qed.

Lemma spins_through_keeps_reset : forall s k s',
  core_contract -> reset_while_pending s ->
  spins_through s k s' ->
  reset_while_pending s'.
Proof.
  intros s k s' Hc Hinv Hsteps.
  induction Hsteps as [s | s st s1 k s' _ Hspin _ _ IH]; [exact Hinv |].
  apply IH.
  pose proof (do_spin_keeps_reset SpinDuration _ Hc
                (record_keeps_reset (EvIsPending true) s Hinv)) as Hnext.
  now rewrite Hspin in Hnext.
Qed.

(** C8. A freshly constructed client reports no success and the
    value-initialised response.  And, the core invoking the callback only when
    it resolves a call, so does a client whose call is still pending: at every
    turn of the loop of a [blockingCall], and in every state reached from a
    fresh client by blocking calls and by spins of the node. *)
Theorem outcome_default_until_resolved :
  core_contract ->
  (forall w,
      wasSuccessful (BlockingServiceClient_new w) = false
      /\ getResponse (BlockingServiceClient_new w) = Response_new)
  /\ (forall id req s call_res s1 k s2,
      do_call id req (setup s) = (call_res, s1) ->
      spins_through s1 k s2 ->
      Super_isPending (world s2) = true ->
      wasSuccessful s2 = false /\ getResponse s2 = Response_new)
  /\ (forall fuel ops w s,
      run fuel ops (BlockingServiceClient_new w) = Some s ->
      Super_isPending (world s) = true ->
      wasSuccessful s = false /\ getResponse s = Response_new).
Proof.
  intros Hc. split; [| split].
  - intros w. split; reflexivity.
  - intros id req s call_res s1 k s2 Hcall Hsteps Hpending.
    pose proof (do_call_after_setup_reset id req s Hc) as Hissued.
    rewrite Hcall in Hissued. cbn [snd] in Hissued.
    destruct (spins_through_keeps_reset _ _ _ Hc Hissued Hsteps) as [_ Hreset].
    unfold wasSuccessful, getResponse. rewrite (Hreset Hpending).
    split; reflexivity.
  - intros fuel ops w s Hrun Hpending.
    assert (Hfresh : reset_while_pending (BlockingServiceClient_new w)).
    { split; [reflexivity | intros _; reflexivity]. }
    destruct (run_keeps_reset _ _ _ _ Hc Hfresh Hrun) as [_ Hreset].
    unfold wasSuccessful, getResponse. rewrite (Hreset Hpending).
    split; reflexivity.
Qed.

End BlockingOutcome.

Section RequestTimeout.
Context `{ServiceRuntime}.
Local Open Scope list_scope.

Lemma timeouts_set_app l1 l2 : timeouts_set (l1 ++ l2) = timeouts_set l1 ++ timeouts_set l2.
Proof.
  induction l1 as [| e l1 IH]; [reflexivity |].
  destruct e; cbn [app timeouts_set]; rewrite IH; reflexivity.
Qed.

Lemma calls_in_app l1 l2 : calls_in (l1 ++ l2) = (calls_in l1 + calls_in l2)%nat.
Proof.
  induction l1 as [| e l1 IH]; [reflexivity |].
  destruct e; cbn [app calls_in]; rewrite IH; reflexivity.
Qed.

Lemma passive_sets_no_timeout : forall l,
  forallb passive_event l = true -> timeouts_set l = [] /\ calls_in l = 0%nat.
Proof.
  induction l as [| e l IH]; intros Hpassive; [split; reflexivity |].
  cbn [forallb] in Hpassive. apply andb_true_iff in Hpassive.
  destruct Hpassive as [He Hl]. destruct (IH Hl) as [Ht Hc].
  destruct e; cbn in He; try discriminate; cbn [timeouts_set calls_in]; auto.
Qed.

(** Events that set no timeout leave the timeout in force as it was, and
    every call among them was issued under it. *)
Lemma no_timeout_set_in_force : forall new old,
  timeouts_set new = [] ->
  timeout_in_force (new ++ old) = timeout_in_force old
  /\ issued_under (new ++ old)
     = repeat (timeout_in_force old) (calls_in new) ++ issued_under old.
Proof.
  induction new as [| e new IH]; intros old Hnone; [split; reflexivity |].
  destruct e; cbn [timeouts_set] in Hnone; try discriminate;
    destruct (IH old Hnone) as [Hforce Hunder];
    cbn [app timeout_in_force issued_under calls_in repeat];
    rewrite ?Hforce, ?Hunder; split; reflexivity.
Qed.

(** A [blockingCall] sets no request timeout and issues one call. *)
Lemma blockingCall_sets_no_timeout fuel id req s r s' :
  blockingCall fuel id req s = Some (r, s') ->
  exists new, log s' = new ++ log s /\ timeouts_set new = [] /\ calls_in new = 1%nat.
Proof.
  intros Hrun.
  destruct (blockingCall_follows _ _ _ _ _ _ Hrun)
    as (post & st & pre & Hpost & Hpre & Hlog & _ & _).
  destruct (passive_sets_no_timeout _ Hpost) as [Hpt Hpc].
  destruct (passive_sets_no_timeout _ Hpre) as [Hqt Hqc].
  exists (post ++ EvCall id req st :: pre ++ [EvSetCallback]). split; [| split].
  - rewrite Hlog. rewrite <- !app_assoc. cbn [app]. now rewrite <- app_assoc.
  - rewrite timeouts_set_app. cbn [timeouts_set]. rewrite timeouts_set_app.
    rewrite Hpt, Hqt. reflexivity.
  - rewrite calls_in_app. cbn [calls_in]. rewrite calls_in_app.
    rewrite Hpc, Hqc. reflexivity.
Qed.

Lemma do_spin_sets_no_timeout d s :
  exists new, log (snd (do_spin d s)) = new ++ log s
              /\ timeouts_set new = [] /\ calls_in new = 0%nat.
Proof.
  unfold do_spin. destruct (Node_spin d (world s)) as [[st results] w].
  cbn [snd record log].
  assert (Hgen : forall rs s0, exists cbs,
             log (deliver rs s0) = cbs ++ log s0
             /\ timeouts_set cbs = [] /\ calls_in cbs = 0%nat).
  { unfold deliver. induction rs as [| res rs IH]; intros s0; cbn [fold_left].
    - exists []. repeat split.
    - destruct (IH (invoke s0 res)) as (cbs & Hlog & Ht & Hc).
      unfold invoke in Hlog |- *.
      destruct (super_callback (client s0)).
      + exists (cbs ++ [EvCallback res]). rewrite Hlog. cbn [log].
        rewrite <- app_assoc, timeouts_set_app, calls_in_app, Ht, Hc.
        repeat split.
      + exists cbs. auto. }
  destruct (Hgen results (mkSys (client s) w (log s))) as (cbs & Hlog & Ht & Hc).
  exists (EvSpin d st :: cbs). rewrite Hlog. repeat split; assumption.
Qed.

Lemma run_sets_no_timeout : forall fuel ops s s',
  forallb (fun op => negb (sets_timeout op)) ops = true ->
  run fuel ops s = Some s' ->
  exists new, log s' = new ++ log s
              /\ timeouts_set new = []
              /\ calls_in new = length (filter issues_call ops).
Proof.
  induction ops as [| op ops IH]; intros s s' Hplain Hrun; cbn [run] in Hrun.
  - injection Hrun as <-. exists []. repeat split.
  - cbn [forallb] in Hplain. apply andb_true_iff in Hplain.
    destruct Hplain as [Hop Hops].
    destruct (run_op fuel op s) as [s1 |] eqn:Hstep; [| discriminate].
    destruct (IH _ _ Hops Hrun) as (new2 & Hlog2 & Ht2 & Hc2).
    assert (Hfirst : exists new1, log s1 = new1 ++ log s /\ timeouts_set new1 = []
                       /\ calls_in new1 = length (filter issues_call [op])).
    { destruct op as [id req | id req t | d]; cbn [run_op] in Hstep.
      - destruct (blockingCall fuel id req s) as [[r s2] |] eqn:E; [| discriminate].
        injection Hstep as <-. exact (blockingCall_sets_no_timeout _ _ _ _ _ _ E).
      - discriminate.
      - injection Hstep as <-. exact (do_spin_sets_no_timeout d s). }
    destruct Hfirst as (new1 & Hlog1 & Ht1 & Hc1).
    exists (new2 ++ new1). split; [| split].
    + now rewrite Hlog2, Hlog1, app_assoc.
    + now rewrite timeouts_set_app, Ht2, Ht1.
    + rewrite calls_in_app, Hc2, Hc1.
      change (op :: ops) with ([op] ++ ops). rewrite filter_app, length_app. lia.
Qed.

(** C10. The overload with a timeout sets the request timeout of the wrapped
    client and then runs the plain [blockingCall]; nothing afterwards sets it
    again.  So after it, and after any further plain blocking calls and spins,
    the timeout in force is still the one it set, and its own call and every
    later call were issued under that timeout. *)
Theorem request_timeout_persists :
  forall (fuel : nat) (id : NodeID) (req : Request) (t : MonotonicDuration)
         (ops : list Op) (s s' : Sys),
    forallb (fun op => negb (sets_timeout op)) ops = true ->
    run fuel (OpBlockingCallTimeout id req t :: ops) s = Some s' ->
    blockingCall_timeout fuel id req t s
    = blockingCall fuel id req
        (mkSys (client s) (Super_setRequestTimeout t (world s))
               (EvSetRequestTimeout t :: log s))
    /\ (exists new, log s' = new ++ EvSetRequestTimeout t :: log s /\ timeouts_set new = [])
    /\ timeout_in_force (log s') = Some t
    /\ issued_under (log s')
       = repeat (Some t) (S (length (filter issues_call ops))) ++ issued_under (log s).
Proof.
  intros fuel id req t ops s s' Hplain Hrun.
  split; [reflexivity |].
  cbn [run run_op] in Hrun. unfold blockingCall_timeout in Hrun.
  destruct (blockingCall fuel id req (do_setRequestTimeout t s)) as [[r s1] |] eqn:E;
    [| discriminate].
  cbn [option_map snd] in Hrun.
  destruct (blockingCall_sets_no_timeout _ _ _ _ _ _ E) as (new1 & Hlog1 & Ht1 & Hc1).
  destruct (run_sets_no_timeout _ _ _ _ Hplain Hrun) as (new2 & Hlog2 & Ht2 & Hc2).
  cbn [do_setRequestTimeout record log] in Hlog1.
  assert (Hlog : log s' = (new2 ++ new1) ++ EvSetRequestTimeout t :: log s).
  { now rewrite Hlog2, Hlog1, app_assoc. }
  assert (Hnone : timeouts_set (new2 ++ new1) = []).
  { now rewrite timeouts_set_app, Ht2, Ht1. }
  destruct (no_timeout_set_in_force _ (EvSetRequestTimeout t :: log s) Hnone)
    as [Hforce Hunder].
  split; [exists (new2 ++ new1); split; assumption |].
  rewrite Hlog, Hforce, Hunder. cbn [timeout_in_force issued_under].
  split; [reflexivity |].
  rewrite calls_in_app, Hc2, Hc1. f_equal. f_equal. lia.
Qed.

End RequestTimeout.

(** ** The simulated runtime: concrete runs *)

Section SimulatedRuns.
Import Sim.
Local Open Scope list_scope.

(** The operations at the simulated runtime. *)
Local Abbreviation sim_blockingCall := (@blockingCall IntService SimRuntime).
Local Abbreviation sim_new := (@BlockingServiceClient_new IntService SimRuntime).
Local Abbreviation sim_run := (@run IntService SimRuntime).

(** Closed arithmetic side conditions on concrete statuses. *)
Ltac concrete := vm_compute; first [reflexivity | discriminate | lia].

(** Give the state that the run [t] evaluates to. *)
Ltac evaluated t :=
  let r := eval vm_compute in t in
  match r with Some ?s => exists s end.

(** The peer is silent and the link goes down after two slices: the third
    [spin] fails and [blockingCall] returns its status, three spins made and a
    timeout of 5 ms not waited for. *)
Lemma blockingCall_returns_spin_error_witness :
  exists s3,
    sim_blockingCall 10%nat 5 41 (sim_new (quiet 5000 silent 7 (Some 4000)))
    = Some (-1, s3)
    /\ spins_in (log s3) = 3%nat
    /\ now (world s3) = 4000.
Proof.
  eexists.
  edestruct (@blockingCall_returns_spin_error IntService SimRuntime 10%nat 5 41
               (sim_new (quiet 5000 silent 7 (Some 4000))))
    as (Hrun & Hcount & _).
  - reflexivity.
  - concrete.
  - eapply spins_more; [reflexivity | reflexivity | concrete |].
    eapply spins_more; [reflexivity | reflexivity | concrete |].
    apply spins_none.
  - reflexivity.
  - reflexivity.
  - concrete.
  - lia.
  - split; [exact Hrun | split; [rewrite Hcount; reflexivity | reflexivity]].
Defined.

(** The core refuses the call: [blockingCall] returns the refusal even with no
    fuel for the loop, and no [spin] is made. *)
Lemma blockingCall_returns_issuance_error_witness :
  exists s1,
    sim_blockingCall 0%nat 5 41 (sim_new (quiet 5000 silent (-3) None)) = Some (-3, s1)
    /\ spins_in (log s1) = 0%nat.
Proof.
  eexists.
  edestruct (@blockingCall_returns_issuance_error IntService SimRuntime 0%nat 5 41
               (sim_new (quiet 5000 silent (-3) None)))
    as (Hrun & Hcount).
  - reflexivity.
  - concrete.
  - split; [exact Hrun | rewrite Hcount; reflexivity].
Defined.

(** The call is issued with status 7 and resolved by the request timeout
    after three slices, without success: [blockingCall] returns 7.  The call
    is issued with status 0 and answered after two slices: [blockingCall]
    returns 0. *)
Lemma blockingCall_returns_issuance_status_witness :
  exists s' s'',
    (sim_blockingCall 10%nat 5 41 (sim_new (quiet 5000 silent 7 None)) = Some (7, s')
     /\ wasSuccessful s' = false)
    /\ (sim_blockingCall 10%nat 5 41 (sim_new (quiet 500000 (answers_after 3000) 0 None))
         = Some (0, s'')
        /\ wasSuccessful s'' = true /\ getResponse s'' = 42).
Proof.
  do 2 eexists.
  split; (split; [| shelve]).
  - eapply (@blockingCall_returns_issuance_status IntService SimRuntime 10%nat 5 41
              (sim_new (quiet 5000 silent 7 None))).
    + reflexivity.
    + concrete.
    + eapply spins_more; [reflexivity | reflexivity | concrete |].
      eapply spins_more; [reflexivity | reflexivity | concrete |].
      eapply spins_more; [reflexivity | reflexivity | concrete |].
      apply spins_none.
    + reflexivity.
    + lia.
  - eapply (@blockingCall_returns_issuance_status IntService SimRuntime 10%nat 5 41
              (sim_new (quiet 500000 (answers_after 3000) 0 None))).
    + reflexivity.
    + concrete.
    + eapply spins_more; [reflexivity | reflexivity | concrete |].
      eapply spins_more; [reflexivity | reflexivity | concrete |].
      apply spins_none.
    + reflexivity.
    + lia.
  Unshelve.
  all: repeat split.
Defined.

(** A peer that answers after 3 ms: [blockingCall] returns 0 and the call is
    no longer pending. *)
Lemma blockingCall_nonnegative_resolved_witness :
  exists s',
    sim_blockingCall 10%nat 5 41 (sim_new (quiet 500000 (answers_after 3000) 0 None))
    = Some (0, s')
    /\ 0 <= 0
    /\ Super_isPending (world s') = false.
Proof.
  eexists.
  assert (Hrun : sim_blockingCall 10%nat 5 41
                   (sim_new (quiet 500000 (answers_after 3000) 0 None))
                 = Some (0, _)) by reflexivity.
  assert (Hpos : 0 <= 0) by lia.
  split; [exact Hrun | split; [exact Hpos |]].
  exact (@blockingCall_nonnegative_resolved IntService SimRuntime _ _ _ _ _ _ Hrun Hpos).
Defined.

(** Two calls on one client: the peer is silent on the first request, which
    times out, and answers the second; after the second call the client
    reports success and the second response, whatever it held before. *)
Lemma blockingCall_resets_outcome_witness :
  exists s1 s2,
    sim_blockingCall 10%nat 5 41 (sim_new (quiet 5000 (silent_on 41 3000) 0 None))
    = Some (0, s1)
    /\ wasSuccessful s1 = false
    /\ sim_blockingCall 10%nat 5 50 s1 = Some (0, s2)
    /\ wasSuccessful s2 = true
    /\ getResponse s2 = 51
    /\ (forall previous,
          sim_blockingCall 10%nat 5 50 (mkSys previous (world s1) (log s1)) = Some (0, s2)).
Proof.
  let first := eval vm_compute in
      (sim_blockingCall 10%nat 5 41 (sim_new (quiet 5000 (silent_on 41 3000) 0 None))) in
  match first with
  | Some (_, ?s1) =>
      exists s1;
      let second := eval vm_compute in (sim_blockingCall 10%nat 5 50 s1) in
      match second with
      | Some (_, ?s2) =>
          exists s2;
          assert (Hrun : sim_blockingCall 10%nat 5 50 s1 = Some (0, s2))
            by (vm_compute; reflexivity)
      end
  end.
  split; [vm_compute; reflexivity |]. split; [reflexivity |].
  split; [exact Hrun |]. split; [reflexivity |]. split; [reflexivity |].
  exact (proj2 (proj2 (@blockingCall_resets_outcome IntService SimRuntime _ _ _ _ _ _ Hrun))).
Defined.

(** The simulated runtime keeps the contract of the core. *)
Lemma sim_contract : @core_contract IntService SimRuntime.
Proof.
  split.
  - intros id req w st results w' Hcall _.
    cbn [Super_call SimRuntime] in Hcall. unfold sim_call in Hcall.
    destruct (issue_status w <? 0); now injection Hcall as _ <- _.
  - intros d w st results w' Hspin Hpending.
    cbn [Node_spin Super_isPending SimRuntime] in *. unfold sim_spin in Hspin.
    unfold sim_isPending in *.
    destruct (link_is_down w).
    + injection Hspin as _ <- <-. split; [reflexivity | exact Hpending].
    + destruct (deadline w) as [dl |] eqn:Hdl.
      * destruct (arrival w) as [[ta payload] |].
        -- destruct ((ta <=? now w + d) && (ta <? dl)).
           ++ injection Hspin as _ _ <-. discriminate Hpending.
           ++ destruct (dl <=? now w + d).
              ** injection Hspin as _ _ <-. discriminate Hpending.
              ** injection Hspin as _ <- _. split; reflexivity.
        -- destruct (dl <=? now w + d).
           ++ injection Hspin as _ _ <-. discriminate Hpending.
           ++ injection Hspin as _ <- _. split; reflexivity.
      * injection Hspin as _ _ <-. discriminate Hpending.
Qed.

(** A first call succeeds; during the second the link goes down and
    [blockingCall] returns with the call still pending: the client reports no
    success and the value-initialised response, not those of the first
    call. *)
Lemma outcome_default_until_resolved_witness :
  exists s,
    sim_run 10%nat [OpBlockingCall 5 41; OpBlockingCall 5 50]
      (sim_new (quiet 500000 (answers_after 3000) 0 (Some 6000))) = Some s
    /\ Super_isPending (world s) = true
    /\ wasSuccessful s = false
    /\ getResponse s = 0.
Proof.
  evaluated (sim_run 10%nat [OpBlockingCall 5 41; OpBlockingCall 5 50]
               (sim_new (quiet 500000 (answers_after 3000) 0 (Some 6000)))).
  match goal with
  | |- ?run = Some ?s /\ _ => assert (Hrun : run = Some s) by (vm_compute; reflexivity)
  end.
  split; [exact Hrun |].
  match goal with
  | |- ?pending = true /\ _ => assert (Hpending : pending = true) by reflexivity
  end.
  split; [exact Hpending |].
  exact (proj2 (proj2 (@outcome_default_until_resolved IntService SimRuntime sim_contract))
           _ _ _ _ Hrun Hpending).
Defined.

(** A call with a timeout of 6 ms and then a plain call, against a silent
    peer: both are issued under 6 ms, each is resolved three slices after it
    was issued, and the wrapped client still holds 6 ms. *)
Lemma request_timeout_persists_witness :
  exists s',
    sim_run 10%nat [OpBlockingCallTimeout 5 41 6000; OpBlockingCall 5 50]
      (sim_new (quiet 500000 silent 0 None)) = Some s'
    /\ timeout_in_force (log s') = Some 6000
    /\ issued_under (log s') = [Some 6000; Some 6000]
    /\ request_timeout (world s') = 6000
    /\ now (world s') = 12000.
Proof.
  evaluated (sim_run 10%nat [OpBlockingCallTimeout 5 41 6000; OpBlockingCall 5 50]
               (sim_new (quiet 500000 silent 0 None))).
  match goal with
  | |- ?run = Some ?s /\ _ => assert (Hrun : run = Some s) by (vm_compute; reflexivity)
  end.
  split; [exact Hrun |].
  pose proof (fun Hplain =>
                @request_timeout_persists IntService SimRuntime _ _ _ _ _ _ _ Hplain Hrun)
    as Hpersists.
  destruct (Hpersists eq_refl) as (_ & _ & Hforce & Hunder).
  split; [exact Hforce |].
  split; [exact Hunder |].
  split; reflexivity.
Defined.

End SimulatedRuns.

(** * Further properties *)

(** ** What an exception message tells *)

(** X1. What [enforce] throws determines both its arguments: two calls that
    throw the same exception were given the same status and the same
    message. *)
Theorem enforce_exception_decodes :
  forall (error1 error2 : Z) (msg1 msg2 : string) (e : Thrown),
    enforce error1 msg1 = inl e ->
    enforce error2 msg2 = inl e ->
    error1 = error2 /\ msg1 = msg2.
Proof.
  intros error1 error2 msg1 msg2 e H1 H2. unfold enforce in H1, H2.
  destruct (error1 <? 0); [| discriminate].
  destruct (error2 <? 0); [| discriminate].
  injection H1 as <-. injection H2 as Heq.
  destruct (bracket_split _ _ _ _ (show_int_no_bracket error2)
              (show_int_no_bracket error1) Heq) as [Hmsg Hshow].
  split; [symmetry; exact (show_int_inj _ _ Hshow) | symmetry; exact Hmsg].
Qed.

Lemma enforce_exception_decodes_witness :
  enforce (-3) "Publisher init failure x" = inl (Exception "Publisher init failure x [-3]")
  /\ -3 = -3 /\ "Publisher init failure x" = "Publisher init failure x".
Proof.
  assert (Hthrow : enforce (-3) "Publisher init failure x"
                   = inl (Exception "Publisher init failure x [-3]")) by reflexivity.
  split; [exact Hthrow |].
  exact (enforce_exception_decodes _ _ _ _ _ Hthrow Hthrow).
Defined.

Section FactoryMessages.
Context `{UavcanCore}.

Lemma factory_throws_message k D st e :
  factory_throws k D st e ->
  e = Exception (failure_prefix k ++ getDataTypeFullName D ++ " [" ++ show_int st ++ "]").
Proof.
  destruct k; cbn [factory_throws failure_prefix];
    intros (x & n & Hst & Hthrow).
  - pose proof (makeSubscriber_enforced D x n) as Hm.
    destruct (Subscriber_start x (Subscriber_new D n) n) as [[st' p] n'].
    cbn [fst] in Hst. subst st'. rewrite Hm in Hthrow.
    exact (enforced_thrown _ _ _ _ _ Hthrow).
  - pose proof (makePublisher_enforced D x n) as Hm.
    destruct (Publisher_init (Publisher_new D n) n) as [[st' p] n'].
    cbn [fst] in Hst. subst st'. rewrite Hm in Hthrow.
    exact (enforced_thrown _ _ _ _ _ Hthrow).
  - pose proof (makeServiceServer_enforced D x n) as Hm.
    destruct (ServiceServer_start x (ServiceServer_new D n) n) as [[st' p] n'].
    cbn [fst] in Hst. subst st'. rewrite Hm in Hthrow.
    exact (enforced_thrown _ _ _ _ _ Hthrow).
  - pose proof (makeServiceClient_enforced D x n) as Hm.
    destruct (ServiceClient_init (ServiceClient_new D n) n) as [[st' p] n'].
    cbn [fst] in Hst. subst st'. rewrite Hm in Hthrow.
    exact (enforced_thrown _ _ _ _ _ Hthrow).
Qed.

(** X2. The exception of an endpoint factory tells which factory threw it, for
    which data type and on which status: one exception cannot come from two
    factories, two type names or two statuses. *)
Theorem factory_exception_decodes :
  forall (k1 k2 : Endpoint) (D1 D2 : DataTypeInfo) (st1 st2 : Z) (e : Thrown),
    factory_throws k1 D1 st1 e ->
    factory_throws k2 D2 st2 e ->
    k1 = k2 /\ getDataTypeFullName D1 = getDataTypeFullName D2 /\ st1 = st2.
Proof.
  intros k1 k2 D1 D2 st1 st2 e H1 H2.
  apply factory_throws_message in H1, H2. rewrite H1 in H2.
  injection H2 as Heq. rewrite <- !append_assoc in Heq.
  destruct (bracket_split _ _ _ _ (show_int_no_bracket st1)
              (show_int_no_bracket st2) Heq) as [Hhead Hshow].
  apply show_int_inj in Hshow.
  assert (Hk : k1 = k2).
  { destruct k1, k2; try reflexivity;
      cbn [failure_prefix append] in Hhead; discriminate Hhead. }
  subst k2. apply append_cancel_l in Hhead. auto.
Qed.

End FactoryMessages.

Lemma factory_exception_decodes_witness :
  @factory_throws (FixedCore (-3)) ESubscriber NodeStatus (-3)
    (Exception "Subscriber start failure uavcan.protocol.NodeStatus [-3]")
  /\ ESubscriber = ESubscriber /\ -3 = -3.
Proof.
  assert (Hthrow : @factory_throws (FixedCore (-3)) ESubscriber NodeStatus (-3)
            (Exception "Subscriber start failure uavcan.protocol.NodeStatus [-3]")).
  { exists tt, 0%nat. split; reflexivity. }
  split; [exact Hthrow |].
  destruct (@factory_exception_decodes (FixedCore (-3)) _ _ _ _ _ _ _ Hthrow Hthrow)
    as (Hk & _ & Hst).
  split; [exact Hk | exact Hst].
Defined.

(** ** [makeNode] on a longer list *)

Section MakeNodePrefix.
Context `{LinuxHost}.
Local Open Scope list_scope.

Lemma addIfaces_app : forall a b c,
  addIfaces c (a ++ b)
  = match addIfaces c a with
    | inl e => inl e
    | inr c' => addIfaces c' b
    end.
Proof.
  induction a as [| x a IH]; intros b c; cbn [app addIfaces]; [reflexivity |].
  destruct (addIface c x) as [st c']. destruct (st <? 0); [reflexivity | apply IH].
Qed.

(** X3. The names at the front of the list decide first: when [makeNode]
    throws on a list it throws the same exception on every longer list that
    starts with it; a longer list succeeds only if the shorter one does; and
    when the shorter one succeeds, the longer one goes on attaching the added
    names to the driver the shorter one built. *)
Theorem makeNode_prefix_decides :
  forall (a b : list string) (mode : ClockAdjustmentMode),
    (forall e, makeNode a mode = inl e -> makeNode (a ++ b) mode = inl e)
    /\ ((exists node, makeNode (a ++ b) mode = inr node) ->
        exists node, makeNode a mode = inr node)
    /\ (forall node, makeNode a mode = inr node ->
        exists dp,
          driver_pack_ node = Some dp
          /\ makeNode (a ++ b) mode
             = match addIfaces (can dp) b with
               | inl e => inl e
               | inr c => inr (Node_of_driver_pack (mkDriverPack (clock dp) c))
               end).
Proof.
  intros a b mode. unfold makeNode. cbv zeta. rewrite addIfaces_app.
  destruct (addIfaces (can (DriverPack_new mode)) a) as [e | c].
  - split; [| split].
    + intros e' Heq. exact Heq.
    + intros [node Hnode]. discriminate.
    + intros node Hnode. discriminate.
  - split; [| split].
    + intros e Heq. discriminate.
    + intros _. eexists. reflexivity.
    + intros node Hnode. injection Hnode as <-.
      eexists. split; reflexivity.
Qed.

End MakeNodePrefix.

Lemma makeNode_prefix_decides_witness :
  @makeNode (HostWith ["can0"; "can1"] 3) ["can0"; "vcan7"] true
  = inl (Exception "Failed to add iface vcan7")
  /\ @makeNode (HostWith ["can0"; "can1"] 3) (["can0"; "vcan7"] ++ ["can1"])%list true
     = inl (Exception "Failed to add iface vcan7").
Proof.
  assert (Hshort : @makeNode (HostWith ["can0"; "can1"] 3) ["can0"; "vcan7"] true
                   = inl (Exception "Failed to add iface vcan7")) by reflexivity.
  split; [exact Hshort |].
  exact (proj1 (@makeNode_prefix_decides (HostWith ["can0"; "can1"] 3)
                  ["can0"; "vcan7"] ["can1"] true) _ Hshort).
Defined.

(** ** What a [blockingCall] does, read off its log *)

Section BlockingLog.
Context `{ServiceRuntime}.
Local Open Scope list_scope.

(** Equal lists up to the bracketing of appends. *)
Ltac same_list :=
  repeat (progress (rewrite <- ?app_assoc; cbn [app])); reflexivity.

Lemma SpinDuration_value : SpinDuration = 2000.
Proof. reflexivity. Qed.

Lemma calls_of_app l1 l2 : calls_of (l1 ++ l2) = calls_of l1 ++ calls_of l2.
Proof.
  induction l1 as [| e l1 IH]; [reflexivity |].
  destruct e; cbn [app calls_of]; rewrite IH; reflexivity.
Qed.

Lemma loop_events_app l1 l2 : loop_events l1 -> loop_events l2 -> loop_events (l1 ++ l2).
Proof.
  intros (Ha & Hb & Hc) (Ha' & Hb' & Hc'). repeat split.
  - apply Forall_app. now split.
  - apply Forall_app. now split.
  - now rewrite calls_of_app, Hc, Hc'.
Qed.

Lemma callbacks_loop_events : forall l,
  forallb is_callback l = true -> loop_events l.
Proof.
  induction l as [| e l IH]; intros Hcb.
  - repeat split; constructor.
  - cbn [forallb] in Hcb. apply andb_true_iff in Hcb. destruct Hcb as [He Hl].
    destruct (IH Hl) as (Ha & Hb & Hc).
    destruct e; try discriminate He.
    repeat split; try (constructor; [exact I | assumption]). exact Hc.
Qed.

Lemma deliver_callbacks : forall results s,
  exists cbs, log (deliver results s) = cbs ++ log s /\ forallb is_callback cbs = true.
Proof.
  unfold deliver.
  induction results as [| res results IH]; intros s; cbn [fold_left].
  - exists []. split; reflexivity.
  - destruct (IH (invoke s res)) as (cbs & Hlog & Hcb).
    unfold invoke in Hlog |- *.
    destruct (super_callback (client s)).
    + exists (cbs ++ [EvCallback res]). rewrite Hlog. cbn [log].
      rewrite <- app_assoc, forallb_app, Hcb. split; reflexivity.
    + exists cbs. split; assumption.
Qed.

Lemma do_spin_log d s :
  exists cbs,
    log (snd (do_spin d s)) = EvSpin d (fst (do_spin d s)) :: cbs ++ log s
    /\ forallb is_callback cbs = true.
Proof.
  unfold do_spin. destruct (Node_spin d (world s)) as [[st results] w].
  destruct (deliver_callbacks results (mkSys (client s) w (log s))) as (cbs & Hlog & Hcb).
  exists cbs. cbn [fst snd record log]. rewrite Hlog. split; [reflexivity | exact Hcb].
Qed.

Lemma do_call_log id req s :
  exists cbs,
    log (snd (do_call id req s)) = EvCall id req (fst (do_call id req s)) :: cbs ++ log s
    /\ forallb is_callback cbs = true.
Proof.
  unfold do_call. destruct (Super_call id req (world s)) as [[st results] w].
  destruct (deliver_callbacks results (mkSys (client s) w (log s))) as (cbs & Hlog & Hcb).
  exists cbs. cbn [fst snd record log]. rewrite Hlog. split; [reflexivity | exact Hcb].
Qed.

(** The log of the loop: its newest event is the check that found the call
    resolved, or the spin that answered an error; the events before it hold
    only clean two-millisecond spins. *)
Lemma spin_loop_log : forall fuel call_res s r s',
  spin_loop fuel call_res s = Some (r, s') ->
  exists e new,
    log s' = e :: new ++ log s
    /\ loop_events new
    /\ ((e = EvIsPending false /\ r = call_res)
        \/ (e = EvSpin 2000 r /\ r < 0)).
Proof.
  induction fuel as [| fuel IH]; intros call_res s r s' Hrun.
  - discriminate.
  - rewrite spin_loop_unfold in Hrun.
    destruct (Super_isPending (world s)).
    + destruct (do_spin_log SpinDuration (record (EvIsPending true) s))
        as (cbs & Hlog & Hcb).
      destruct (do_spin SpinDuration (record (EvIsPending true) s)) as [st s2].
      cbn [fst snd record log] in Hlog. rewrite SpinDuration_value in Hlog.
      assert (Hturn : loop_events (cbs ++ [EvIsPending true])).
      { apply loop_events_app; [exact (callbacks_loop_events _ Hcb) |].
        repeat split; constructor; [exact I | constructor | exact I | constructor]. }
      destruct (Z.ltb_spec st 0) as [Hneg | Hok].
      * injection Hrun as <- <-.
        exists (EvSpin 2000 st), (cbs ++ [EvIsPending true]). split; [| split].
        -- rewrite Hlog. same_list.
        -- exact Hturn.
        -- right. split; [reflexivity | exact Hneg].
      * destruct (IH _ _ _ _ Hrun) as (e & new & Hlog' & Hnew & Hlast).
        exists e, (new ++ EvSpin 2000 st :: cbs ++ [EvIsPending true]).
        split; [| split].
        -- rewrite Hlog', Hlog. same_list.
        -- apply loop_events_app; [exact Hnew |].
           change (EvSpin 2000 st :: cbs ++ [EvIsPending true])
             with ([EvSpin 2000 st] ++ (cbs ++ [EvIsPending true])).
           apply loop_events_app; [| exact Hturn].
           repeat split; constructor; try constructor. exact Hok.
        -- exact Hlast.
    + injection Hrun as <- <-.
      exists (EvIsPending false), []. split; [reflexivity | split].
      * repeat split; constructor.
      * left. split; reflexivity.
Qed.

(** The log of a [blockingCall]: [setup], the call, and then either nothing
    (the call was refused) or the log of the loop. *)
Lemma blockingCall_log fuel id req s r s' :
  blockingCall fuel id req s = Some (r, s') ->
  exists e new,
    log s' = e :: new ++ log s
    /\ Forall two_ms_slice (e :: new)
    /\ Forall spin_succeeded new
    /\ calls_of (e :: new) = [(id, req)]
    /\ (r = fst (do_call id req (setup s))
        \/ (0 <= fst (do_call id req (setup s)) /\ r < 0 /\ e = EvSpin 2000 r)).
Proof.
  intros Hrun. unfold blockingCall in Hrun. cbv zeta in Hrun.
  destruct (do_call_log id req (setup s)) as (pre & Hlog1 & Hpre).
  destruct (do_call id req (setup s)) as [call_res s1].
  cbn [fst snd setup log] in Hlog1 |- *.
  destruct (callbacks_loop_events _ Hpre) as (Hp1 & Hp2 & Hp3).
  assert (Hsetup : loop_events (pre ++ [EvSetCallback])).
  { apply loop_events_app; [exact (callbacks_loop_events _ Hpre) |].
    repeat split; constructor; [exact I | constructor | exact I | constructor]. }
  destruct (Z.leb_spec 0 call_res) as [Hok | Hneg].
  - destruct (spin_loop_log _ _ _ _ _ Hrun) as (e & new & Hlog2 & Hnew & Hlast).
    assert (Hcall : loop_events new /\ True) by (split; [exact Hnew | exact I]).
    destruct Hnew as (Hn1 & Hn2 & Hn3). destruct Hsetup as (Hs1 & Hs2 & Hs3).
    exists e, (new ++ EvCall id req call_res :: pre ++ [EvSetCallback]).
    split; [| split; [| split; [| split]]].
    + rewrite Hlog2, Hlog1. same_list.
    + constructor.
      * destruct Hlast as [[-> _] | [-> _]]; [exact I | reflexivity].
      * apply Forall_app. split; [exact Hn1 |]. constructor; [exact I | exact Hs1].
    + apply Forall_app. split; [exact Hn2 |]. constructor; [exact I | exact Hs2].
    + assert (He : calls_of (e :: new ++ EvCall id req call_res :: pre ++ [EvSetCallback])
                   = calls_of (new ++ EvCall id req call_res :: pre ++ [EvSetCallback])).
      { destruct Hlast as [[-> _] | [-> _]]; reflexivity. }
      rewrite He, calls_of_app, Hn3. cbn [app calls_of]. now rewrite Hs3.
    + destruct Hlast as [[_ ->] | [-> Hr]]; [left; reflexivity |].
      right. repeat split; assumption.
  - injection Hrun as <- <-. destruct Hsetup as (Hs1 & Hs2 & Hs3).
    exists (EvCall id req call_res), (pre ++ [EvSetCallback]).
    split; [| split; [| split; [| split]]].
    + rewrite Hlog1. same_list.
    + constructor; [exact I | exact Hs1].
    + exact Hs2.
    + cbn [calls_of]. now rewrite Hs3.
    + left. reflexivity.
Qed.

(** X4. The value a [blockingCall] returns is the status of the issuance,
    unless the call was accepted and the newest thing the call did was a spin
    that answered an error, whose status it then is.  So a non-negative value
    is always the issuance status. *)
Theorem blockingCall_return_value :
  forall (fuel : nat) (id : NodeID) (req : Request) (s : Sys) (r : Z) (s' : Sys),
    blockingCall fuel id req s = Some (r, s') ->
    (r = fst (do_call id req (setup s))
     \/ (0 <= fst (do_call id req (setup s)) /\ r < 0
         /\ exists older, log s' = EvSpin 2000 r :: older))
    /\ (0 <= r -> r = fst (do_call id req (setup s))).
Proof.
  intros fuel id req s r s' Hrun.
  destruct (blockingCall_log _ _ _ _ _ _ Hrun) as (e & new & Hlog & _ & _ & _ & Hlast).
  split.
  - destruct Hlast as [Heq | (Hok & Hneg & ->)]; [left; exact Heq |].
    right. repeat split; try assumption. eexists. exact Hlog.
  - intros Hpos. destruct Hlast as [Heq | (_ & Hneg & _)]; [exact Heq | lia].
Qed.

(** X5. Every spin a [blockingCall] makes lasts two milliseconds (2000
    microseconds), however long the request timeout. *)
Theorem blockingCall_spins_two_ms :
  forall (fuel : nat) (id : NodeID) (req : Request) (s : Sys) (r : Z) (s' : Sys),
    blockingCall fuel id req s = Some (r, s') ->
    exists new,
      log s' = new ++ log s
      /\ forall d st, In (EvSpin d st) new -> d = 2000.
Proof.
  intros fuel id req s r s' Hrun.
  destruct (blockingCall_log _ _ _ _ _ _ Hrun) as (e & new & Hlog & Hslices & _).
  exists (e :: new). split; [exact Hlog |].
  intros d st Hin. rewrite Forall_forall in Hslices.
  exact (Hslices _ Hin).
Qed.

(** X6. A [blockingCall] makes nothing after a spin that answered an error:
    every spin it made but the newest event of its log answered a
    non-negative status. *)
Theorem blockingCall_stops_at_spin_error :
  forall (fuel : nat) (id : NodeID) (req : Request) (s : Sys) (r : Z) (s' : Sys),
    blockingCall fuel id req s = Some (r, s') ->
    exists e new,
      log s' = e :: new ++ log s
      /\ forall d st, In (EvSpin d st) new -> 0 <= st.
Proof.
  intros fuel id req s r s' Hrun.
  destruct (blockingCall_log _ _ _ _ _ _ Hrun) as (e & new & Hlog & _ & Hclean & _).
  exists e, new. split; [exact Hlog |].
  intros d st Hin. rewrite Forall_forall in Hclean.
  exact (Hclean _ Hin).
Qed.

(** X7. A [blockingCall] issues one call, to the given server and with the
    given request, and no other: it does not retry, whether the call is
    refused, resolved or abandoned on a spin error. *)
Theorem blockingCall_issues_one_call :
  forall (fuel : nat) (id : NodeID) (req : Request) (s : Sys) (r : Z) (s' : Sys),
    blockingCall fuel id req s = Some (r, s') ->
    exists new, log s' = new ++ log s /\ calls_of new = [(id, req)].
Proof.
  intros fuel id req s r s' Hrun.
  destruct (blockingCall_log _ _ _ _ _ _ Hrun) as (e & new & Hlog & _ & _ & Hcalls & _).
  exists (e :: new). split; [exact Hlog | exact Hcalls].
Qed.

(** *** A call that is never resolved *)

Lemma spin_loop_never_returns : forall fuel call_res s,
  stays_pending s -> spin_loop fuel call_res s = None.
Proof.
  induction fuel as [| fuel IH]; intros call_res s Hstays; [reflexivity |].
  rewrite spin_loop_unfold.
  destruct (Hstays 0%nat s (spins_none s)) as [Hpending Hok]. rewrite Hpending.
  destruct (do_spin SpinDuration (record (EvIsPending true) s)) as [st s2] eqn:Hspin.
  cbn [fst] in Hok.
  destruct (Z.ltb_spec st 0); [lia |].
  apply IH. intros k s' Hsteps.
  exact (Hstays (S k) s' (spins_more _ _ _ _ _ Hpending Hspin Hok Hsteps)).
Qed.

(** X8. [blockingCall] has no bound of its own: when the call is accepted and
    then stays pending while the spins answer no error, it does not return,
    whatever the number of turns allowed. *)
Theorem blockingCall_never_returns :
  forall (id : NodeID) (req : Request) (s : Sys),
    0 <= fst (do_call id req (setup s)) ->
    stays_pending (snd (do_call id req (setup s))) ->
    forall fuel, blockingCall fuel id req s = None.
Proof.
  intros id req s Hok Hstays fuel. unfold blockingCall. cbv zeta.
  destruct (do_call id req (setup s)) as [call_res s1]. cbn [fst snd] in *.
  destruct (Z.leb_spec 0 call_res); [| lia].
  exact (spin_loop_never_returns _ _ _ Hstays).
Qed.

End BlockingLog.

Section BlockingSequences.
Context `{ServiceRuntime}.
Local Open Scope list_scope.

Lemma timeout_in_force_newest l : timeout_in_force l = hd_error (timeouts_set l).
Proof.
  induction l as [| e l IH]; [reflexivity |].
  destruct e; cbn [timeout_in_force timeouts_set hd_error]; auto.
Qed.

Lemma run_op_timeouts fuel op s s' :
  run_op fuel op s = Some s' ->
  timeouts_set (log s') = rev (timeouts_given [op]) ++ timeouts_set (log s).
Proof.
  destruct op as [id req | id req t | d]; cbn [run_op timeouts_given rev app]; intros Hop.
  - destruct (blockingCall fuel id req s) as [[r s1] |] eqn:E; [| discriminate].
    injection Hop as <-.
    destruct (blockingCall_sets_no_timeout _ _ _ _ _ _ E) as (new & Hlog & Hnone & _).
    now rewrite Hlog, timeouts_set_app, Hnone.
  - unfold blockingCall_timeout in Hop.
    destruct (blockingCall fuel id req (do_setRequestTimeout t s)) as [[r s1] |] eqn:E;
      [| discriminate].
    injection Hop as <-.
    destruct (blockingCall_sets_no_timeout _ _ _ _ _ _ E) as (new & Hlog & Hnone & _).
    now rewrite Hlog, timeouts_set_app, Hnone.
  - injection Hop as <-.
    destruct (do_spin_sets_no_timeout d s) as (new & Hlog & Hnone & _).
    now rewrite Hlog, timeouts_set_app, Hnone.
Qed.

Lemma timeouts_given_app a b : timeouts_given (a ++ b) = timeouts_given a ++ timeouts_given b.
Proof.
  induction a as [| op a IH]; [reflexivity |].
  destruct op; cbn [app timeouts_given]; rewrite IH; reflexivity.
Qed.

(** X9. Over any sequence of blocking calls and spins, the request timeout of
    the wrapped client is set once for every call through the overload with a
    timeout, to the value given and in call order, and never otherwise; so the
    timeout in force afterwards is the one of the last such call, or the one
    in force before when there was none. *)
Theorem request_timeouts_follow_calls :
  forall (fuel : nat) (ops : list Op) (s s' : Sys),
    run fuel ops s = Some s' ->
    timeouts_set (log s') = rev (timeouts_given ops) ++ timeouts_set (log s)
    /\ timeout_in_force (log s')
       = match rev (timeouts_given ops) with
         | t :: _ => Some t
         | [] => timeout_in_force (log s)
         end.
Proof.
  intros fuel ops s s' Hrun.
  assert (Hset : timeouts_set (log s') = rev (timeouts_given ops) ++ timeouts_set (log s)).
  { revert s Hrun. induction ops as [| op ops IH]; intros s Hrun; cbn [run] in Hrun.
    - now injection Hrun as <-.
    - destruct (run_op fuel op s) as [s1 |] eqn:Hop; [| discriminate].
      rewrite (IH _ Hrun), (run_op_timeouts _ _ _ _ Hop).
      change (op :: ops) with ([op] ++ ops).
      now rewrite timeouts_given_app, rev_app_distr, app_assoc. }
  split; [exact Hset |].
  rewrite !timeout_in_force_newest, Hset.
  destruct (rev (timeouts_given ops)); reflexivity.
Qed.

(** *** Which result the accessors report *)

Lemma replay_last_result l m :
  replay l m
  = match last_result l with
    | Some res => mkMembers (response res) (isSuccessful res)
    | None => m
    end.
Proof.
  induction l as [| e l IH]; [reflexivity |].
  destruct e; cbn [replay last_result]; auto.
Qed.

(** X10. After a [blockingCall], [wasSuccessful] and [getResponse] report
    the result handed to the callback last during that call; when none was
    handed over they report no success and the value-initialised response. *)
Theorem blockingCall_reports_last_result :
  forall (fuel : nat) (id : NodeID) (req : Request) (s : Sys) (r : Z) (s' : Sys),
    blockingCall fuel id req s = Some (r, s') ->
    exists new,
      log s' = new ++ EvSetCallback :: log s
      /\ match last_result new with
         | Some res => wasSuccessful s' = isSuccessful res /\ getResponse s' = response res
         | None => wasSuccessful s' = false /\ getResponse s' = Response_new
         end.
Proof.
  intros fuel id req s r s' Hrun.
  destruct (blockingCall_follows _ _ _ _ _ _ Hrun)
    as (post & st & pre & _ & _ & Hlog & _ & Hm).
  exists (post ++ EvCall id req st :: pre). split.
  - rewrite Hlog. rewrite <- app_assoc. reflexivity.
  - unfold wasSuccessful, getResponse. rewrite Hm, replay_last_result.
    destruct (last_result (post ++ EvCall id req st :: pre)); split; reflexivity.
Qed.

(** X11. A [blockingCall] leaves its callback in the slot of the wrapped
    client: a result that a later spin of the node hands over, for instance
    for a call abandoned on a spin error, is still recorded, and the accessors
    then report the last result of that spin. *)
Theorem late_result_is_recorded :
  forall (fuel : nat) (id : NodeID) (req : Request) (s : Sys) (r : Z) (s1 : Sys)
         (d : MonotonicDuration) (st : Z) (results : list ServiceCallResult)
         (res : ServiceCallResult) (w : World),
    blockingCall fuel id req s = Some (r, s1) ->
    Node_spin d (world s1) = (st, results ++ [res], w) ->
    wasSuccessful (snd (do_spin d s1)) = isSuccessful res
    /\ getResponse (snd (do_spin d s1)) = response res.
Proof.
  intros fuel id req s r s1 d st results res w Hrun Hspin.
  destruct (blockingCall_follows _ _ _ _ _ _ Hrun) as (_ & _ & _ & _ & _ & _ & Hbound & _).
  unfold do_spin. rewrite Hspin. cbn [snd].
  unfold wasSuccessful, getResponse, deliver. cbn [record client].
  rewrite fold_left_app. cbn [fold_left].
  destruct (deliver_slot_world results (mkSys (client s1) w (log s1))) as [Hcb _].
  unfold deliver in Hcb. cbn [client] in Hcb. rewrite Hbound in Hcb.
  unfold invoke at 1 3. rewrite Hcb. cbn [client members callback].
  split; reflexivity.
Qed.

End BlockingSequences.

(** ** Concrete runs for the further properties *)

Section FurtherRuns.
Import Sim.
Local Open Scope list_scope.

Local Abbreviation sim_call_blocking := (@blockingCall IntService SimRuntime).
Local Abbreviation sim_fresh := (@BlockingServiceClient_new IntService SimRuntime).
Local Abbreviation sim_ops := (@run IntService SimRuntime).
Local Abbreviation scripted_blocking := (@blockingCall IntService Scripted.ScriptedRuntime).
Local Abbreviation scripted_fresh :=
  (@BlockingServiceClient_new IntService Scripted.ScriptedRuntime).
Local Abbreviation scripted_do_call := (@do_call IntService Scripted.ScriptedRuntime).
Local Abbreviation scripted_setup := (@setup IntService Scripted.ScriptedRuntime).

(** Give the state that the blocking call [t] evaluates to, with the fact
    that it does. *)
Ltac with_result t :=
  let r := eval vm_compute in t in
  match r with
  | Some (?v, ?s) =>
      exists s; assert (Hrun : t = Some (v, s)) by (vm_compute; reflexivity)
  end.

Ltac with_state t :=
  let r := eval vm_compute in t in
  match r with
  | Some ?s => exists s; assert (Hrun : t = Some s) by (vm_compute; reflexivity)
  end.

(** A call issued with status 7 and resolved by timeout returns 7. *)
Lemma blockingCall_return_value_witness :
  exists s',
    sim_call_blocking 10%nat 5 41 (sim_fresh (quiet 5000 silent 7 None)) = Some (7, s')
    /\ (0 <= 7 ->
        7 = fst (do_call 5 41 (setup (sim_fresh (quiet 5000 silent 7 None))))).
Proof.
  with_result (sim_call_blocking 10%nat 5 41 (sim_fresh (quiet 5000 silent 7 None))).
  split; [exact Hrun |].
  exact (proj2 (@blockingCall_return_value IntService SimRuntime _ _ _ _ _ _ Hrun)).
Defined.

(** Three spins against a silent peer with a timeout of 5 ms: each lasts
    2 ms. *)
Lemma blockingCall_spins_two_ms_witness :
  exists s',
    sim_call_blocking 10%nat 5 41 (sim_fresh (quiet 5000 silent 7 None)) = Some (7, s')
    /\ spins_in (log s') = 3%nat
    /\ exists new,
         log s' = new ++ log (sim_fresh (quiet 5000 silent 7 None))
         /\ forall d st, In (EvSpin d st) new -> d = 2000.
Proof.
  with_result (sim_call_blocking 10%nat 5 41 (sim_fresh (quiet 5000 silent 7 None))).
  split; [exact Hrun | split; [reflexivity |]].
  exact (@blockingCall_spins_two_ms IntService SimRuntime _ _ _ _ _ _ Hrun).
Defined.

(** The link goes down after two slices: the failed spin is the newest
    event. *)
Lemma blockingCall_stops_at_spin_error_witness :
  exists s',
    sim_call_blocking 10%nat 5 41 (sim_fresh (quiet 5000 silent 7 (Some 4000)))
    = Some (-1, s')
    /\ exists e new,
         log s' = e :: new ++ log (sim_fresh (quiet 5000 silent 7 (Some 4000)))
         /\ forall d st, In (EvSpin d st) new -> 0 <= st.
Proof.
  with_result (sim_call_blocking 10%nat 5 41
                 (sim_fresh (quiet 5000 silent 7 (Some 4000)))).
  split; [exact Hrun |].
  exact (@blockingCall_stops_at_spin_error IntService SimRuntime _ _ _ _ _ _ Hrun).
Defined.

Lemma blockingCall_issues_one_call_witness :
  exists s',
    sim_call_blocking 10%nat 5 41 (sim_fresh (quiet 5000 silent 7 (Some 4000)))
    = Some (-1, s')
    /\ exists new,
         log s' = new ++ log (sim_fresh (quiet 5000 silent 7 (Some 4000)))
         /\ calls_of new = [(5, 41)].
Proof.
  with_result (sim_call_blocking 10%nat 5 41
                 (sim_fresh (quiet 5000 silent 7 (Some 4000)))).
  split; [exact Hrun |].
  exact (@blockingCall_issues_one_call IntService SimRuntime _ _ _ _ _ _ Hrun).
Defined.

(** With an empty script the scripted runtime never resolves a call. *)
Lemma scripted_stuck_world :
  forall (s : @Sys IntService Scripted.ScriptedRuntime) k
         (s' : @Sys IntService Scripted.ScriptedRuntime),
  spins_through s k s' ->
  world s = Scripted.mkScripted true [] ->
  world s' = Scripted.mkScripted true [].
Proof.
  induction 1 as [s | s st s1 k s' _ Hspin _ _ IH]; intros Hworld; [exact Hworld |].
  apply IH. unfold do_spin in Hspin. cbn [record world] in Hspin.
  rewrite Hworld in Hspin. cbn in Hspin. now injection Hspin as _ <-.
Qed.

Lemma scripted_stays_pending (s : @Sys IntService Scripted.ScriptedRuntime) :
  world s = Scripted.mkScripted true [] ->
  stays_pending s.
Proof.
  intros Hworld k s' Hsteps.
  pose proof (scripted_stuck_world _ _ _ Hsteps Hworld) as Hstuck.
  split.
  - now rewrite Hstuck.
  - unfold do_spin. cbn [record world]. rewrite Hstuck. cbn. lia.
Qed.

(** The call is accepted and never resolved, and no spin fails: a thousand
    turns are not enough, nor any other number. *)
Lemma blockingCall_never_returns_witness :
  0 <= fst (scripted_do_call 5 41
              (scripted_setup (scripted_fresh (Scripted.mkScripted false []))))
  /\ scripted_blocking 1000%nat 5 41 (scripted_fresh (Scripted.mkScripted false [])) = None.
Proof.
  assert (Hok : 0 <= fst (scripted_do_call 5 41
                            (scripted_setup
                               (scripted_fresh (Scripted.mkScripted false [])))))
    by (vm_compute; discriminate).
  split; [exact Hok |].
  apply (@blockingCall_never_returns IntService Scripted.ScriptedRuntime 5 41 _ Hok).
  apply scripted_stays_pending. reflexivity.
Defined.

(** Timeouts of 6 ms, none, and 4 ms: set in that order; 4 ms is in force. *)
Lemma request_timeouts_follow_calls_witness :
  exists s',
    sim_ops 10%nat
      [OpBlockingCallTimeout 5 41 6000; OpBlockingCall 5 50; OpBlockingCallTimeout 5 41 4000]
      (sim_fresh (quiet 500000 silent 0 None)) = Some s'
    /\ timeouts_set (log s') = [4000; 6000]
    /\ timeout_in_force (log s') = Some 4000.
Proof.
  with_state (sim_ops 10%nat
                [OpBlockingCallTimeout 5 41 6000; OpBlockingCall 5 50;
                 OpBlockingCallTimeout 5 41 4000]
                (sim_fresh (quiet 500000 silent 0 None))).
  split; [exact Hrun |].
  exact (@request_timeouts_follow_calls IntService SimRuntime _ _ _ _ Hrun).
Defined.

(** The peer answers 42: the accessors report that result. *)
Lemma blockingCall_reports_last_result_witness :
  exists s',
    sim_call_blocking 10%nat 5 41 (sim_fresh (quiet 500000 (answers_after 3000) 0 None))
    = Some (0, s')
    /\ wasSuccessful s' = true
    /\ getResponse s' = 42
    /\ exists new,
         log s' = new ++ EvSetCallback
                    :: log (sim_fresh (quiet 500000 (answers_after 3000) 0 None))
         /\ match last_result new with
            | Some res =>
                wasSuccessful s' = isSuccessful res /\ getResponse s' = response res
            | None => wasSuccessful s' = false /\ getResponse s' = Response_new
            end.
Proof.
  with_result (sim_call_blocking 10%nat 5 41
                 (sim_fresh (quiet 500000 (answers_after 3000) 0 None))).
  split; [exact Hrun | split; [reflexivity | split; [reflexivity |]]].
  exact (@blockingCall_reports_last_result IntService SimRuntime _ _ _ _ _ _ Hrun).
Defined.

(** The first spin fails and [blockingCall] returns with the call pending; the
    next spin of the node hands over the answer 9, which the client
    records. *)
Lemma late_result_is_recorded_witness :
  exists s1,
    scripted_blocking 10%nat 5 41
      (scripted_fresh (Scripted.mkScripted false [(-1, []); (0, [mkResult 9 true])]))
    = Some (-1, s1)
    /\ wasSuccessful s1 = false
    /\ wasSuccessful (snd (do_spin 2000 s1)) = true
    /\ getResponse (snd (do_spin 2000 s1)) = 9.
Proof.
  with_result (scripted_blocking 10%nat 5 41
                 (scripted_fresh
                    (Scripted.mkScripted false [(-1, []); (0, [mkResult 9 true])]))).
  split; [exact Hrun | split; [reflexivity |]].
  refine (@late_result_is_recorded IntService Scripted.ScriptedRuntime
            _ _ _ _ _ _ 2000 0 [] (mkResult 9 true) (Scripted.mkScripted false [])
            Hrun _).
  reflexivity.
Defined.

End FurtherRuns.
